(** * AsteroidEnv: a shallow embedding of [main3.py]

    The asteroid-dodging environment of [main3.py] (class [AsteroidEnv]) is
    embedded as pure functions over an explicit environment record.

    Modelling conventions.
    - Python [int]s are [Z].  The player's [y] and the projectiles' [y] are
      Python floats, but every value they take is an integer far below 2^53
      ([HEIGHT * 0.75 = 450.0], minus 3 or 7 per tick, clipped to
      [[300.0, 450.0]]), so these floats are exact and are carried as [Z].
    - The remaining floats (score, rewards, clock readings, the sample points
      and the normalised distances of the range finder) are rationals [Q];
      arithmetic on them is taken exact.  The final [np.float32] conversion
      of the observation is not modelled.
    - [distance(p, q) <= r] is [math.hypot(..) <= r]; it is embedded as the
      comparison of squares guarded by [0 <= r].
    - [math.cos(math.radians(a))] and [math.sin(math.radians(a))] are library
      calls; they are taken as parameters (class [Trig]).
    - The module-level generator behind [random.randint] is a tape of raw
      draws with a read position, threaded through the environment record.
    - pygame's pressed-key table and event queue are inputs of [step].
    - [list.remove] raises [ValueError]; [step] therefore yields an
      [outcome]: it either returns or raises, in both cases with the
      environment as mutated so far. *)

From Stdlib Require Import ZArith QArith Qround List Bool Lia Lqa String Permutation.
Import ListNotations.
Open Scope Z_scope.

(** ** Game constants *)

Definition WIDTH : Z := 800.
Definition HEIGHT : Z := 600.
Definition PLAYER_SPEED : Z := 3.
Definition SIDE_SPEED : Z := 4.
Definition ASTEROID_COUNT : nat := 8.
Definition ASTEROID_SPEED : Z := 2.
Definition LIDAR_RAYS : nat := 24.
Definition LIDAR_RANGE : Z := 200.
Definition MAX_BLASTS : Z := 5.
Definition BLAST_RECHARGE_TIME : Z := 60.
Definition FPS : Z := 60.

(** ** Library parameters and inputs *)

(** [cos_deg a] stands for [math.cos(math.radians(a))] and [sin_deg a] for
    [math.sin(math.radians(a))]; a double is a rational number. *)
Class Trig := {
  cos_deg : Q -> Q;
  sin_deg : Q -> Q
}.

(** What the range finder needs of the two functions: their values lie in
    [[-1, 1]]. *)
Definition trig_bounded (T : Trig) : Prop :=
  forall a : Q,
    (-1 <= cos_deg a)%Q /\ (cos_deg a <= 1)%Q /\
    (-1 <= sin_deg a)%Q /\ (sin_deg a <= 1)%Q.

(** The state of Python's [random] module. *)
Record Rng := mkRng {
  tape : nat -> Z;
  pos : nat
}.

(** [random.randint(a, b)]: an integer of [[a, b]], one draw consumed. *)
Definition randint (a b : Z) (g : Rng) : Z * Rng :=
  (a + (tape g (pos g)) mod (b - a + 1),
   {| tape := tape g; pos := S (pos g) |}).

Inductive keycode := K_LEFT | K_RIGHT | K_SPACE | K_OTHER.

Inductive event :=
| QUIT
| KEYDOWN (key : keycode)
| OTHER_EVENT.

(** What one call of [step] reads from pygame: [pygame.key.get_pressed()]
    and [pygame.event.get()]. *)
Record Input := mkInput {
  get_pressed : keycode -> bool;
  event_get : list event
}.

(** Values a caller may pass as [action]. *)
Inductive PyValue :=
| PyNone
| PyInt (n : Z)
| PyFloat (q : Q)
| PyBool (b : bool)
| PyStr (s : string).

(** ** Data model *)

(** The dict built by [_new_asteroid]. *)
Record Asteroid := mkAsteroid {
  ast_x : Z;
  ast_y : Z;
  ast_radius : Z;
  ast_speed : Z
}.

(** The dict appended by [_shoot]. *)
Record Blast := mkBlast {
  blast_x : Z;
  blast_y : Z
}.

(** The attributes of an [AsteroidEnv] object set by [reset], together with
    the generator state. *)
Record AsteroidEnv := mkEnv {
  self_x : Z;
  self_y : Z;
  self_radius : Z;
  self_blasts : Z;
  self_last_recharge : Q;
  self_score : Q;
  self_start_time : Q;
  self_alive : bool;
  self_asteroids : list Asteroid;
  self_blasts_list : list Blast;
  random_state : Rng
}.

Definition set_player (vx vy : Z) (s : AsteroidEnv) : AsteroidEnv :=
  mkEnv vx vy (self_radius s) (self_blasts s) (self_last_recharge s)
        (self_score s) (self_start_time s) (self_alive s)
        (self_asteroids s) (self_blasts_list s) (random_state s).

Definition set_asteroids (l : list Asteroid) (g : Rng) (s : AsteroidEnv)
  : AsteroidEnv :=
  mkEnv (self_x s) (self_y s) (self_radius s) (self_blasts s)
        (self_last_recharge s) (self_score s) (self_start_time s)
        (self_alive s) l (self_blasts_list s) g.

Definition set_blasts (n : Z) (l : list Blast) (s : AsteroidEnv)
  : AsteroidEnv :=
  mkEnv (self_x s) (self_y s) (self_radius s) n (self_last_recharge s)
        (self_score s) (self_start_time s) (self_alive s)
        (self_asteroids s) l (random_state s).

Definition set_score (q : Q) (s : AsteroidEnv) : AsteroidEnv :=
  mkEnv (self_x s) (self_y s) (self_radius s) (self_blasts s)
        (self_last_recharge s) q (self_start_time s) (self_alive s)
        (self_asteroids s) (self_blasts_list s) (random_state s).

(** Values stored in the [info] dict. *)
Inductive InfoValue :=
| InfoFloat (q : Q)
| InfoBool (b : bool).

(** The tuple [(obs, reward, done, info)] returned by [step]; [obs] is
    [None] on the quit path and [info] is a dict in insertion order. *)
Record StepResult := mkResult {
  obs : option (list Q);
  reward : Q;
  done : bool;
  info : list (string * InfoValue)
}.

Inductive exn := ValueError.

(** A call either returns a value or raises, and leaves an environment. *)
Inductive outcome (A : Type) :=
| Returned (a : A) (s : AsteroidEnv)
| Raised (e : exn) (s : AsteroidEnv).
Arguments Returned {A} a s.
Arguments Raised {A} e s.

(** ** Helpers standing for Python and numpy primitives *)

(** [np.clip(v, lo, hi)] is [minimum(maximum(v, lo), hi)]. *)
Definition np_clip (v lo hi : Z) : Z := Z.min (Z.max v lo) hi.

(** [range(start, stop, step)] for a positive [step]. *)
Definition py_range (start stop step : Z) : list Z :=
  map (fun i => start + step * Z.of_nat i)
      (seq 0 (Z.to_nat ((stop - start + step - 1) / step))).

(** [np.linspace(start, stop, num, endpoint=False)]. *)
Definition np_linspace (start stop : Q) (num : nat) : list Q :=
  map (fun i => (start + inject_Z (Z.of_nat i)
                         * ((stop - start) / inject_Z (Z.of_nat num)))%Q)
      (seq 0 num).

(** [distance(a, b) <= r] with [distance = math.hypot] of the differences. *)
Definition distance_le (a b : Q * Q) (r : Q) : bool :=
  Qle_bool 0 r &&
  Qle_bool ((fst a - fst b) * (fst a - fst b)
            + (snd a - snd b) * (snd a - snd b))%Q (r * r)%Q.

Definition zpoint (vx vy : Z) : Q * Q := (inject_Z vx, inject_Z vy).

Definition Asteroid_eqb (a b : Asteroid) : bool :=
  (ast_x a =? ast_x b) && (ast_y a =? ast_y b)
  && (ast_radius a =? ast_radius b) && (ast_speed a =? ast_speed b).

(** [l.remove(h)]: drops the first element equal to [h] (dicts compare by
    value); [None] stands for the [ValueError] raised when there is none. *)
Fixpoint list_remove (h : Asteroid) (l : list Asteroid)
  : option (list Asteroid) :=
  match l with
  | [] => None
  | a :: r =>
      if Asteroid_eqb a h then Some r
      else match list_remove h r with
           | Some r' => Some (a :: r')
           | None => None
           end
  end.

(** ** The methods of [AsteroidEnv] *)

Definition _new_asteroid (g : Rng) : Asteroid * Rng :=
  let (vx, g1) := randint 0 WIDTH g in
  let (vy, g2) := randint (- HEIGHT) 0 g1 in
  let (vr, g3) := randint 15 40 g2 in
  (mkAsteroid vx vy vr ASTEROID_SPEED, g3).
Arguments _new_asteroid g : simpl never.

(** [[self._new_asteroid() for _ in range(n)]]. *)
Fixpoint spawn_many (n : nat) (g : Rng) : list Asteroid * Rng :=
  match n with
  | O => ([], g)
  | S k =>
      let (a, g1) := _new_asteroid g in
      let (l, g2) := spawn_many k g1 in
      (a :: l, g2)
  end.

(** First loop of [_move_asteroids]: [a["y"] += a["speed"]]. *)
Definition advance_asteroid (a : Asteroid) : Asteroid :=
  mkAsteroid (ast_x a) (ast_y a + ast_speed a) (ast_radius a) (ast_speed a).

(** The comprehension of [_move_asteroids]:
    [a if a["y"] - a["radius"] <= HEIGHT else self._new_asteroid()]. *)
Fixpoint respawn (l : list Asteroid) (g : Rng) : list Asteroid * Rng :=
  match l with
  | [] => ([], g)
  | a :: r =>
      if ast_y a - ast_radius a <=? HEIGHT then
        let (r', g') := respawn r g in (a :: r', g')
      else
        let (n, g1) := _new_asteroid g in
        let (r', g') := respawn r g1 in (n :: r', g')
  end.

Definition _move_asteroids (s : AsteroidEnv) : AsteroidEnv :=
  let (l, g) := respawn (map advance_asteroid (self_asteroids s))
                        (random_state s) in
  set_asteroids l g s.

(** The two blocks of [_move_player]. *)
Definition forward_motion (s : AsteroidEnv) : AsteroidEnv :=
  set_player (self_x s)
             (np_clip (self_y s - PLAYER_SPEED) (HEIGHT / 2) (HEIGHT * 3 / 4))
             s.

Definition sideways_motion (keys : keycode -> bool) (s : AsteroidEnv)
  : AsteroidEnv :=
  let x1 := if keys K_LEFT then self_x s - SIDE_SPEED else self_x s in
  let x2 := if keys K_RIGHT then x1 + SIDE_SPEED else x1 in
  set_player (np_clip x2 (WIDTH / 2 - 150) (WIDTH / 2 + 150)) (self_y s) s.

Definition _move_player (keys : keycode -> bool) (s : AsteroidEnv)
  : AsteroidEnv :=
  sideways_motion keys (forward_motion s).

Definition _shoot (s : AsteroidEnv) : AsteroidEnv :=
  if 0 <? self_blasts s then
    set_blasts (self_blasts s - 1)
               (self_blasts_list s ++ [mkBlast (self_x s) (self_y s)]) s
  else s.

Definition advance_blast (b : Blast) : Blast :=
  mkBlast (blast_x b) (blast_y b - 7).

Definition _move_blasts (s : AsteroidEnv) : AsteroidEnv :=
  set_blasts (self_blasts s)
             (filter (fun b => 0 <? blast_y b)
                     (map advance_blast (self_blasts_list s)))
             s.

Definition collides (s : AsteroidEnv) (a : Asteroid) : bool :=
  distance_le (zpoint (self_x s) (self_y s)) (zpoint (ast_x a) (ast_y a))
              (inject_Z (self_radius s + ast_radius a)).

Definition _check_collisions (s : AsteroidEnv) : bool :=
  existsb (collides s) (self_asteroids s).

Definition blast_in (b : Blast) (a : Asteroid) : bool :=
  distance_le (zpoint (blast_x b) (blast_y b)) (zpoint (ast_x a) (ast_y a))
              (inject_Z (ast_radius a)).

(** The first loop of [_check_blast_hits]: for each projectile, the first
    asteroid in list order that contains it, if any. *)
Fixpoint collect_hits (bl : list Blast) (al : list Asteroid)
  : list Asteroid :=
  match bl with
  | [] => []
  | b :: r =>
      match find (blast_in b) al with
      | Some a => a :: collect_hits r al
      | None => collect_hits r al
      end
  end.

(** The second loop: [remove] then [append(self._new_asteroid())]. *)
Fixpoint replace_hits (hits : list Asteroid) (s : AsteroidEnv)
  : outcome unit :=
  match hits with
  | [] => Returned tt s
  | h :: r =>
      match list_remove h (self_asteroids s) with
      | None => Raised ValueError s
      | Some l =>
          let (n, g) := _new_asteroid (random_state s) in
          replace_hits r (set_asteroids (l ++ [n]) g s)
      end
  end.

Definition _check_blast_hits (s : AsteroidEnv) : outcome nat :=
  let hits := collect_hits (self_blasts_list s) (self_asteroids s) in
  match replace_hits hits s with
  | Returned _ s' => Returned (List.length hits) s'
  | Raised e s' => Raised e s'
  end.

Section Sensor.

Context {T : Trig}.

(** One sample of a ray at marched distance [r]: the point lies outside
    the world or inside some asteroid.  The two [break]s of the source
    both record [dist = r] and leave the march. *)
Definition ray_stops (s : AsteroidEnv) (dx dy : Q) (r : Z) : bool :=
  let rx := (inject_Z (self_x s) + dx * inject_Z r)%Q in
  let ry := (inject_Z (self_y s) + dy * inject_Z r)%Q in
  (negb (Qle_bool 0 rx) || Qle_bool (inject_Z WIDTH) rx
   || negb (Qle_bool 0 ry) || Qle_bool (inject_Z HEIGHT) ry)
  || existsb (fun a => distance_le (rx, ry) (zpoint (ast_x a) (ast_y a))
                                   (inject_Z (ast_radius a)))
             (self_asteroids s).

(** The distance recorded for the ray at [angle] degrees. *)
Definition ray_dist (s : AsteroidEnv) (angle : Q) : Z :=
  let dx := cos_deg angle in
  let dy := sin_deg angle in
  match find (ray_stops s dx dy) (py_range 0 LIDAR_RANGE 5) with
  | Some r => r
  | None => LIDAR_RANGE
  end.

Definition _get_lidar (s : AsteroidEnv) : list Q :=
  map (fun angle =>
         Qred (inject_Z (ray_dist s angle) / inject_Z LIDAR_RANGE))
      (np_linspace 0 (inject_Z 360) LIDAR_RAYS).

Definition _get_observation (s : AsteroidEnv) : list Q := _get_lidar s.

(** [reset]; [t_recharge] and [t_start] are its two readings of
    [time.time()], [g] the generator state it starts from. *)
Definition reset (t_recharge t_start : Q) (g : Rng)
  : list Q * AsteroidEnv :=
  let (l, g') := spawn_many ASTEROID_COUNT g in
  let s := mkEnv (WIDTH / 2) (HEIGHT * 3 / 4) 15 MAX_BLASTS t_recharge 0
                 t_start true l [] g' in
  (_get_observation s, s).

(** The event loop of [step]: [true] when it left through [QUIT]. *)
Fixpoint handle_events (evs : list event) (s : AsteroidEnv)
  : AsteroidEnv * bool :=
  match evs with
  | [] => (s, false)
  | QUIT :: _ => (s, true)
  | KEYDOWN K_SPACE :: r => handle_events r (_shoot s)
  | _ :: r => handle_events r s
  end.

Definition step (action : PyValue) (inp : Input) (s : AsteroidEnv)
  : outcome StepResult :=
  let keys := get_pressed inp in
  let (s1, quit) := handle_events (event_get inp) s in
  if quit then Returned (mkResult None 0 true []) s1
  else
    let s2 := _move_player keys s1 in
    let s3 := _move_asteroids s2 in
    let s4 := _move_blasts s3 in
    match _check_blast_hits s4 with
    | Raised e s5 => Raised e s5
    | Returned _ s5 =>
        let done := _check_collisions s5 in
        let reward := if negb done then (1 # 10)%Q else (-10 # 1)%Q in
        let s6 := set_score (self_score s5 + reward)%Q s5 in
        let obs := _get_observation s6 in
        Returned
          (mkResult (Some obs) reward done
                    [("score"%string, InfoFloat (self_score s6));
                     ("alive"%string, InfoBool (negb done))])
          s6
    end.

(** States the driver loop can be in: after [reset], and after every
    call of [step] that returned. *)
Inductive reachable : AsteroidEnv -> Prop :=
| reach_reset t1 t2 g : reachable (snd (reset t1 t2 g))
| reach_step s action inp r s' :
    reachable s ->
    step action inp s = Returned r s' ->
    reachable s'.

(** A driver run: [step] once per input, stopping at the first call that
    raises. *)
Fixpoint run (inps : list Input) (s : AsteroidEnv)
  : outcome (list StepResult) :=
  match inps with
  | [] => Returned [] s
  | i :: rest =>
      match step PyNone i s with
      | Raised e s' => Raised e s'
      | Returned r s' =>
          match run rest s' with
          | Returned rs s'' => Returned (r :: rs) s''
          | Raised e s'' => Raised e s''
          end
      end
  end.

End Sensor.

(** ** A concrete instance of the library parameters *)

(** The doubles returned by [math.cos(math.radians(15.0 * i))] on x86-64
    glibc, as exact fractions, [i = 0 .. 23]. *)
Definition cos_table : list Q := [
  1; 8700286382685973 # 9007199254740992;
  7800463371553963 # 9007199254740992;
  6369051672525773 # 9007199254740992;
  4503599627370497 # 9007199254740992;
  291404338770025 # 1125899906842624;
  4967757600021511 # 81129638414606681695789005144064;
  -2331234710160201 # 9007199254740992;
  -2251799813685247 # 4503599627370496;
  -1592262918131443 # 2251799813685248;
  -7800463371553963 # 9007199254740992;
  -2175071595671493 # 2251799813685248;
  -1;
  -8700286382685973 # 9007199254740992;
  -3900231685776981 # 4503599627370496;
  -3184525836262887 # 4503599627370496;
  -1125899906842625 # 2251799813685248;
  -2331234710160199 # 9007199254740992;
  -3725818200016133 # 20282409603651670423947251286016;
  582808677540049 # 2251799813685248;
  4503599627370497 # 9007199254740992;
  6369051672525771 # 9007199254740992;
  975057921444245 # 1125899906842624;
  8700286382685973 # 9007199254740992 ]%Q.

Definition sin_table : list Q := [
  0; 291404338770025 # 1125899906842624;
  9007199254740991 # 18014398509481984;
  1592262918131443 # 2251799813685248;
  3900231685776981 # 4503599627370496;
  8700286382685973 # 9007199254740992;
  1;
  8700286382685973 # 9007199254740992;
  7800463371553963 # 9007199254740992;
  6369051672525773 # 9007199254740992;
  9007199254740991 # 18014398509481984;
  4662469420320405 # 18014398509481984;
  4967757600021511 # 40564819207303340847894502572032;
  -4662469420320401 # 18014398509481984;
  -4503599627370497 # 9007199254740992;
  -1592262918131443 # 2251799813685248;
  -975057921444245 # 1125899906842624;
  -8700286382685973 # 9007199254740992;
  -1;
  -4350143191342987 # 4503599627370496;
  -3900231685776981 # 4503599627370496;
  -3184525836262887 # 4503599627370496;
  -1125899906842625 # 2251799813685248;
  -4662469420320399 # 18014398509481984 ]%Q.

Definition table_lookup (t : list Q) (a : Q) : Q :=
  nth (Z.to_nat ((Qfloor (a / inject_Z 15)) mod 24)) t 0%Q.

Definition table_trig : Trig :=
  {| cos_deg := table_lookup cos_table; sin_deg := table_lookup sin_table |}.

(** ** Concrete inputs used in the examples *)

Definition no_keys : keycode -> bool := fun _ => false.
Definition idle : Input := mkInput no_keys [].

(** A generator whose first three draws make the asteroid
    [(400, 0, radius 40)] and whose later draws make [(0, -600, radius 15)]. *)
Definition centre_tape : Rng :=
  mkRng (fun n => nth n [400; 600; 25] 0) 0.

Definition zero_tape : Rng := mkRng (fun _ => 0) 0.


(** No key held, [n] presses of the space bar in the queue. *)
Definition fire (n : nat) : Input :=
  mkInput no_keys (repeat (KEYDOWN K_SPACE) n).

(** The environment after a first [reset]: every asteroid is
    [(0, -600, radius 15)]. *)
Definition fresh_env : AsteroidEnv :=
  snd (reset (T := table_trig) 0 0 zero_tape).

(** What an idle call of [step] makes of [fresh_env]. *)
Definition fresh_after : AsteroidEnv :=
  mkEnv 400 447 15 5 0 (0 + (1 # 10)) 0 true
        (repeat (mkAsteroid 0 (-598) 15 2) 8) []
        (mkRng (tape zero_tape) 24).

Definition fresh_result : StepResult :=
  mkResult (Some (_get_observation (T := table_trig) fresh_after)) (1 # 10)
           false
           [("score"%string, InfoFloat (self_score fresh_after));
            ("alive"%string, InfoBool true)].

(** The LEFT key held, nothing in the queue. *)
Definition hold_left : Input :=
  mkInput (fun k => match k with K_LEFT => true | _ => false end) [].

(** What a call of [step] with LEFT held makes of [fresh_env]. *)
Definition left_after : AsteroidEnv :=
  mkEnv 396 447 15 5 0 (0 + (1 # 10)) 0 true
        (repeat (mkAsteroid 0 (-598) 15 2) 8) []
        (mkRng (tape zero_tape) 24).

Definition left_result : StepResult :=
  mkResult (Some (_get_observation (T := table_trig) left_after)) (1 # 10)
           false
           [("score"%string, InfoFloat (self_score left_after));
            ("alive"%string, InfoBool true)].

(** What a call of [step] with one press of the space bar makes of
    [fresh_env]: one charge spent, one projectile on its way. *)
Definition shot_after : AsteroidEnv :=
  mkEnv 400 447 15 4 0 (0 + (1 # 10)) 0 true
        (repeat (mkAsteroid 0 (-598) 15 2) 8) [mkBlast 400 443]
        (mkRng (tape zero_tape) 24).

Definition shot_result : StepResult :=
  mkResult (Some (_get_observation (T := table_trig) shot_after)) (1 # 10)
           false
           [("score"%string, InfoFloat (self_score shot_after));
            ("alive"%string, InfoBool true)].

(** [hit_env] after the moves of the next tick, before hit resolution: the
    projectile is inside the asteroid. *)
Definition hit_moved : AsteroidEnv :=
  mkEnv 400 303 15 4 0 0 0 true [mkAsteroid 400 98 15 2] [mkBlast 400 107]
        zero_tape.

(** A small world one tick before a hit: a projectile at [(400, 114)]
    below an asteroid at [(400, 96)] of radius 15; and what an idle call of
    [step] makes of it. *)
Definition hit_env : AsteroidEnv :=
  mkEnv 400 306 15 4 0 0 0 true [mkAsteroid 400 96 15 2] [mkBlast 400 114]
        zero_tape.

Definition hit_after : AsteroidEnv :=
  mkEnv 400 303 15 4 0 (0 + (1 # 10)) 0 true [mkAsteroid 0 (-600) 15 2]
        [mkBlast 400 107] (mkRng (tape zero_tape) 3).

Definition hit_result : StepResult :=
  mkResult (Some (_get_observation (T := table_trig) hit_after)) (1 # 10)
           false
           [("score"%string, InfoFloat (self_score hit_after));
            ("alive"%string, InfoBool true)].

(** A small world one tick before a collision: an asteroid of radius 20
    just above the player; and what an idle call of [step] makes of it. *)
Definition crash_env : AsteroidEnv :=
  mkEnv 400 300 15 5 0 0 0 true [mkAsteroid 400 298 20 2] [] zero_tape.

Definition crash_after : AsteroidEnv :=
  mkEnv 400 300 15 5 0 (0 + (-10 # 1)) 0 true [mkAsteroid 400 300 20 2] []
        zero_tape.

Definition crash_result : StepResult :=
  mkResult (Some (_get_observation (T := table_trig) crash_after))
           (-10 # 1) true
           [("score"%string, InfoFloat (self_score crash_after));
            ("alive"%string, InfoBool false)].

(** A small world one tick before a double hit: two projectiles at the
    same point below an asteroid of radius 40; and the environment in which
    an idle call of [step] then raises. *)
Definition double_env : AsteroidEnv :=
  mkEnv 400 312 15 3 0 0 0 true [mkAsteroid 400 90 40 2]
        [mkBlast 400 135; mkBlast 400 135] zero_tape.

Definition double_raised : AsteroidEnv :=
  mkEnv 400 309 15 3 0 0 0 true [mkAsteroid 0 (-600) 15 2]
        [mkBlast 400 128; mkBlast 400 128] (mkRng (tape zero_tape) 3).

(** An empty world with the player in the middle. *)
Definition clear_env : AsteroidEnv :=
  mkEnv 400 300 15 5 0 0 0 true [] [] zero_tape.

(** A frame whose queue holds only [QUIT]. *)
Definition close_window : Input := mkInput no_keys [QUIT].

(** A queue with a shoot request on either side of [QUIT]. *)
Definition shot_quit_shot : Input :=
  mkInput no_keys [KEYDOWN K_SPACE; QUIT; KEYDOWN K_SPACE].

(** ** Vocabulary of the statements *)

(** The environment an outcome leaves behind. *)
Definition outcome_env {A : Type} (o : outcome A) : AsteroidEnv :=
  match o with
  | Returned _ s => s
  | Raised _ s => s
  end.

Definition is_raised {A : Type} (o : outcome A) : bool :=
  match o with
  | Returned _ _ => false
  | Raised _ _ => true
  end.

(** [same_player s s']: the player's position, radius and score agree. *)
Definition same_player (s s' : AsteroidEnv) : Prop :=
  self_x s' = self_x s /\ self_y s' = self_y s /\
  self_radius s' = self_radius s /\ self_score s' = self_score s.

(** [same_blasts s s']: the charge and the projectile list agree. *)
Definition same_blasts (s s' : AsteroidEnv) : Prop :=
  self_blasts s' = self_blasts s /\ self_blasts_list s' = self_blasts_list s.

(** [same_rocks s s']: the asteroid list and the generator agree. *)
Definition same_rocks (s s' : AsteroidEnv) : Prop :=
  self_asteroids s' = self_asteroids s /\ random_state s' = random_state s.

(** Events the loop of [step] distinguishes. *)
Definition is_shoot (e : event) : bool :=
  match e with KEYDOWN K_SPACE => true | _ => false end.

(** The events the loop handles before it meets [QUIT]. *)
Fixpoint before_quit (evs : list event) : list event :=
  match evs with
  | [] => []
  | QUIT :: _ => []
  | e :: r => e :: before_quit r
  end.

Definition shoots_before_quit (evs : list event) : nat :=
  List.length (filter is_shoot (before_quit evs)).

(** The result of the quit path of [step]: the one without observation. *)
Definition is_quit_result (r : StepResult) : bool :=
  match obs r with
  | None => true
  | Some _ => false
  end.

(** An asteroid as [_new_asteroid] makes them. *)
Definition is_spawn (a : Asteroid) : Prop :=
  exists g : Rng, a = fst (_new_asteroid g).

(** The circle-circle test of [_check_collisions], on the integers. *)
Definition touches (s : AsteroidEnv) (a : Asteroid) : Prop :=
  0 <= self_radius s + ast_radius a /\
  (self_x s - ast_x a) * (self_x s - ast_x a)
  + (self_y s - ast_y a) * (self_y s - ast_y a)
  <= (self_radius s + ast_radius a) * (self_radius s + ast_radius a).

(** ** The driver loop of [main3.py] *)

(** What can end the script with a traceback: an exception out of [step],
    or the [KeyError] of a dict subscript. *)
Inductive py_error :=
| StepRaised (e : exn)
| KeyError (key : string).

(** How the script stands after the frames it was given: it printed the
    game-over line with the value it read from [info] and went on to
    [env.close()]; or it died on an uncaught exception; or its loop is still
    going. *)
Inductive main_outcome :=
| Exited (printed : InfoValue) (s : AsteroidEnv)
| Uncaught (e : py_error) (s : AsteroidEnv)
| Running (s : AsteroidEnv).

(** [d[k]] on a dict in insertion order; [None] stands for [KeyError]. *)
Fixpoint dict_get (k : string) (d : list (string * InfoValue))
  : option InfoValue :=
  match d with
  | [] => None
  | (k', v) :: r => if String.eqb k' k then Some v else dict_get k r
  end.

Section Driver.

Context {T : Trig}.

(** The [while not done] loop, one frame of pygame input per iteration.
    [env.step()] is called without an action; [env.render()] only reads
    the environment and draws, and is left out. *)
Fixpoint main_loop (frames : list Input) (s : AsteroidEnv) : main_outcome :=
  match frames with
  | [] => Running s
  | i :: rest =>
      match step PyNone i s with
      | Raised e s' => Uncaught (StepRaised e) s'
      | Returned r s' =>
          if done r then
            match dict_get "score" (info r) with
            | Some v => Exited v s'
            | None => Uncaught (KeyError "score") s'
            end
          else main_loop rest s'
      end
  end.

(** The script: [AsteroidEnv()] resets once, [env.reset()] once more, then
    the loop.  [t1 .. t4] are the clock readings of the two resets. *)
Definition main (t1 t2 t3 t4 : Q) (g : Rng) (frames : list Input)
  : main_outcome :=
  let s0 := snd (reset t1 t2 g) in
  main_loop frames (snd (reset t3 t4 (random_state s0))).

End Driver.

(** ** [cartpole_game.py] *)

(** The demo drives an environment object of [gym] or [gymnasium].  That
    object is a parameter: a state type and the five calls the script makes
    on it.  Observations are lists of rationals, actions are integers. *)
Module CartPole.

(** What [env.step(action)] hands back: a 5-tuple (gymnasium), a 4-tuple
    (gym), or something that is neither and does not unpack. *)
Inductive step_result :=
| Result5 (ob : list Q) (rew : Q) (terminated truncated : bool)
| Result4 (ob : list Q) (rew : Q) (dn : bool)
| Malformed.

(** The [try] block [obs, info = env.reset(seed=seed)]: it goes through,
    or the call or the unpacking raises. *)
Inductive reset_attempt (St : Type) :=
| Unpacked (ob : list Q) (e : St)
| Failed (e : St).
Arguments Unpacked {St} ob e.
Arguments Failed {St} e.

Record GymEnv (St : Type) := mkGymEnv {
  env_reset_seeded : option Z -> St -> reset_attempt St;
  env_reset : St -> list Q * St;
  env_sample : St -> Z * St;
  env_step : Z -> St -> step_result * St;
  env_render : St -> St
}.
Arguments env_reset_seeded {St} g seed e.
Arguments env_reset {St} g e.
Arguments env_sample {St} g e.
Arguments env_step {St} g action e.
Arguments env_render {St} g e.

Inductive error := IndexError | UnpackError.

(** How [run_episode] ends: it returns [(total_reward, steps)], or an
    exception of the script's own leaves it. *)
Inductive episode (St : Type) :=
| Finished (total_reward : Q) (steps : Z) (e : St)
| Crashed (err : error) (e : St).
Arguments Finished {St} total_reward steps e.
Arguments Crashed {St} err e.

(** [auto_policy]: [obs[2]] raises [IndexError] on a short observation. *)
Definition auto_policy (ob : list Q) : option Z :=
  match nth_error ob 2 with
  | None => None
  | Some angle => Some (if negb (Qle_bool angle 0) then 1 else 0)
  end.

Section Episode.

Context {St : Type} (env : GymEnv St).

(** The [while True] loop of [run_episode].  [fuel] bounds the number of
    iterations; [None] means it ran out. *)
Fixpoint episode_loop (fuel : nat) (mode : string) (max_steps : Z)
         (ob : list Q) (total : Q) (steps : Z) (e : St)
  : option (episode St) :=
  match fuel with
  | O => None
  | S k =>
      let chosen :=
        if String.eqb mode "random" then
          let (a, e1) := env_sample env e in Some (a, e1)
        else if String.eqb mode "auto" then
          match auto_policy ob with
          | Some a => Some (a, e)
          | None => None
          end
        else
          let (a, e1) := env_sample env e in Some (a, e1) in
      match chosen with
      | None => Some (Crashed IndexError e)
      | Some (action, e1) =>
          let (result, e2) := env_step env action e1 in
          let unpacked :=
            match result with
            | Result5 ob' rew terminated truncated =>
                Some (ob', rew, terminated || truncated)
            | Result4 ob' rew dn => Some (ob', rew, dn)
            | Malformed => None
            end in
          match unpacked with
          | None => Some (Crashed UnpackError e2)
          | Some (ob', rew, dn) =>
              let total' := (total + rew)%Q in
              let steps' := steps + 1 in
              let e3 := env_render env e2 in
              if dn || (max_steps <=? steps') then
                Some (Finished total' steps' e3)
              else episode_loop k mode max_steps ob' total' steps' e3
          end
      end
  end.

(** [run_episode(env, mode, seed, max_steps)].  The loop leaves after at
    most [max 1 max_steps] iterations, which is the fuel it is given. *)
Definition run_episode (mode : string) (seed : option Z) (max_steps : Z)
           (e : St) : option (episode St) :=
  let (ob, e0) :=
    match env_reset_seeded env seed e with
    | Unpacked ob e1 => (ob, e1)
    | Failed e1 => env_reset env e1
    end in
  episode_loop (Z.to_nat (Z.max 1 max_steps)) mode max_steps ob 0 0 e0.

(** An environment whose every step pays the reward 1. *)
Definition unit_rewards : Prop :=
  forall action e,
    match fst (env_step env action e) with
    | Result5 _ rew _ _ => (rew == 1)%Q
    | Result4 _ rew _ => (rew == 1)%Q
    | Malformed => True
    end.

(** An environment whose steps unpack and never report the end of the
    episode. *)
Definition never_done : Prop :=
  forall action e,
    match fst (env_step env action e) with
    | Result5 _ _ terminated truncated =>
        terminated = false /\ truncated = false
    | Result4 _ _ dn => dn = false
    | Malformed => False
    end.

End Episode.

(** A toy environment that never terminates: it only counts its steps. *)
Definition endless_env : GymEnv Z :=
  mkGymEnv Z
    (fun _ e => Failed e)
    (fun _ => ([0; 0]%Q, 0))
    (fun e => (1, e))
    (fun _ e => (Result4 [0; 0]%Q 1 false, e + 1))
    (fun e => e).

(** A toy environment: the state counts the steps taken, the pole leans
    right on odd counts, and the episode terminates at the third step. *)
Definition toy_env : GymEnv Z :=
  mkGymEnv Z
    (fun _ _ => Unpacked [0; 0; 0; 0]%Q 0)
    (fun _ => ([0; 0; 0; 0]%Q, 0))
    (fun e => (0, e))
    (fun _ e =>
       (Result5 [0; 0; if Z.odd e then 1 else -1; 0]%Q 1 (3 <=? e + 1) false,
        e + 1))
    (fun e => e).

(** A toy environment whose observations have two components only. *)
Definition short_env : GymEnv Z :=
  mkGymEnv Z
    (fun _ _ => Unpacked [0; 0]%Q 0)
    (fun _ => ([0; 0]%Q, 0))
    (fun e => (1, e))
    (fun _ e => (Result4 [0; 0]%Q 1 false, e + 1))
    (fun e => e).

End CartPole.

(** * Properties *)

(** ** What each method leaves untouched *)

Lemma same_player_trans s1 s2 s3 :
  same_player s1 s2 -> same_player s2 s3 -> same_player s1 s3.
Proof.
  unfold same_player. intros (A & B & C & D) (A' & B' & C' & D').
  repeat split; congruence.
Qed.

Lemma same_blasts_trans s1 s2 s3 :
  same_blasts s1 s2 -> same_blasts s2 s3 -> same_blasts s1 s3.
Proof.
  unfold same_blasts. intros (A & B) (A' & B'). split; congruence.
Qed.

Lemma same_rocks_trans s1 s2 s3 :
  same_rocks s1 s2 -> same_rocks s2 s3 -> same_rocks s1 s3.
Proof.
  unfold same_rocks. intros (A & B) (A' & B'). split; congruence.
Qed.

Lemma _shoot_same_player s : same_player s (_shoot s).
Proof.
  unfold _shoot, same_player.
  destruct (0 <? self_blasts s); simpl; auto.
Qed.

Lemma _shoot_same_rocks s : same_rocks s (_shoot s).
Proof.
  unfold _shoot, same_rocks.
  destruct (0 <? self_blasts s); simpl; auto.
Qed.

Lemma _shoot_charge s :
  0 <= self_blasts s <= MAX_BLASTS ->
  0 <= self_blasts (_shoot s) <= MAX_BLASTS.
Proof.
  unfold _shoot. intros H.
  destruct (0 <? self_blasts s) eqn:E; simpl; [ | exact H].
  apply Z.ltb_lt in E. lia.
Qed.

Lemma replace_hits_same_player hits :
  forall s, same_player s (outcome_env (replace_hits hits s)).
Proof.
  induction hits as [ | h r IH]; intros s; cbn [replace_hits].
  - repeat split.
  - destruct (list_remove h (self_asteroids s)) as [l | ].
    + destruct (_new_asteroid (random_state s)) as [n g].
      apply (IH (set_asteroids (l ++ [n]) g s)).
    + repeat split.
Qed.

Lemma replace_hits_same_blasts hits :
  forall s, same_blasts s (outcome_env (replace_hits hits s)).
Proof.
  induction hits as [ | h r IH]; intros s; cbn [replace_hits].
  - split; reflexivity.
  - destruct (list_remove h (self_asteroids s)) as [l | ].
    + destruct (_new_asteroid (random_state s)) as [n g].
      apply (IH (set_asteroids (l ++ [n]) g s)).
    + split; reflexivity.
Qed.

Lemma _check_blast_hits_env s :
  outcome_env (_check_blast_hits s)
  = outcome_env
      (replace_hits (collect_hits (self_blasts_list s) (self_asteroids s)) s).
Proof.
  unfold _check_blast_hits.
  destruct (replace_hits _ s); reflexivity.
Qed.

Lemma _move_asteroids_same_player s : same_player s (_move_asteroids s).
Proof.
  unfold _move_asteroids.
  destruct (respawn _ _) as [l g]. repeat split.
Qed.


Section Frames.

Context {T : Trig}.

Lemma handle_events_same_player evs :
  forall s, same_player s (fst (handle_events evs s)).
Proof.
  induction evs as [ | e r IH]; intros s; simpl.
  - repeat split.
  - destruct e as [ | [ | | | ] | ]; simpl;
      first [ apply IH
            | eapply same_player_trans; [apply _shoot_same_player | apply IH]
            | repeat split ].
Qed.

Lemma handle_events_same_rocks evs :
  forall s, same_rocks s (fst (handle_events evs s)).
Proof.
  induction evs as [ | e r IH]; intros s; simpl.
  - split; reflexivity.
  - destruct e as [ | [ | | | ] | ]; simpl;
      first [ apply IH
            | eapply same_rocks_trans; [apply _shoot_same_rocks | apply IH]
            | split; reflexivity ].
Qed.

Lemma handle_events_charge evs :
  forall s,
    0 <= self_blasts s <= MAX_BLASTS ->
    0 <= self_blasts (fst (handle_events evs s)) <= MAX_BLASTS.
Proof.
  induction evs as [ | e r IH]; intros s H; simpl.
  - exact H.
  - destruct e as [ | [ | | | ] | ]; simpl; auto.
    apply IH. apply _shoot_charge. exact H.
Qed.

(** The shape of a call of [step] that does not meet [QUIT]. *)
Lemma step_normal action inp s s1 :
  handle_events (event_get inp) s = (s1, false) ->
  step action inp s
  = match _check_blast_hits
            (_move_blasts (_move_asteroids
                             (_move_player (get_pressed inp) s1))) with
    | Raised e s5 => Raised e s5
    | Returned _ s5 =>
        let d := _check_collisions s5 in
        let rw := if negb d then (1 # 10)%Q else (-10 # 1)%Q in
        let s6 := set_score (self_score s5 + rw)%Q s5 in
        Returned
          (mkResult (Some (_get_observation s6)) rw d
                    [("score"%string, InfoFloat (self_score s6));
                     ("alive"%string, InfoBool (negb d))])
          s6
    end.
Proof.
  intros H. unfold step. rewrite H. reflexivity.
Qed.

Lemma step_quit action inp s s1 :
  handle_events (event_get inp) s = (s1, true) ->
  step action inp s = Returned (mkResult None 0 true []) s1.
Proof.
  intros H. unfold step. rewrite H. reflexivity.
Qed.

(** [QUIT] in the queue is exactly what makes the event loop leave. *)
Lemma handle_events_quit evs :
  forall s, snd (handle_events evs s) = existsb
              (fun e => match e with QUIT => true | _ => false end) evs.
Proof.
  induction evs as [ | e r IH]; intros s; simpl.
  - reflexivity.
  - destruct e as [ | [ | | | ] | ]; simpl; auto.
Qed.

End Frames.

Lemma _check_blast_hits_same_player s :
  same_player s (outcome_env (_check_blast_hits s)).
Proof. rewrite _check_blast_hits_env. apply replace_hits_same_player. Qed.

Lemma _check_blast_hits_same_blasts s :
  same_blasts s (outcome_env (_check_blast_hits s)).
Proof. rewrite _check_blast_hits_env. apply replace_hits_same_blasts. Qed.

Lemma _move_blasts_same_player s : same_player s (_move_blasts s).
Proof. repeat split. Qed.

Lemma _move_blasts_same_rocks s : same_rocks s (_move_blasts s).
Proof. split; reflexivity. Qed.

Lemma _move_player_same_blasts keys s : same_blasts s (_move_player keys s).
Proof. split; reflexivity. Qed.

Lemma _move_player_same_rocks keys s : same_rocks s (_move_player keys s).
Proof. split; reflexivity. Qed.

Lemma _move_player_bounds keys s :
  250 <= self_x (_move_player keys s) <= 550 /\
  300 <= self_y (_move_player keys s) <= 450.
Proof.
  unfold _move_player, sideways_motion, forward_motion, np_clip.
  change (WIDTH / 2 - 150) with 250. change (WIDTH / 2 + 150) with 550.
  change (HEIGHT / 2) with 300. change (HEIGHT * 3 / 4) with 450.
  cbn [self_x self_y set_player].
  destruct (keys K_LEFT), (keys K_RIGHT); lia.
Qed.

Section StepFacts.

Context {T : Trig}.

(** The player after a call of [step] that did not meet [QUIT] is where
    [_move_player] put it; the charge and the projectiles are those of
    [_move_blasts]. *)
Lemma step_normal_env action inp s s1 :
  handle_events (event_get inp) s = (s1, false) ->
  let s2 := _move_player (get_pressed inp) s1 in
  let s' := outcome_env (step action inp s) in
  self_x s' = self_x s2 /\ self_y s' = self_y s2 /\
  self_radius s' = self_radius s1 /\
  self_blasts s' = self_blasts s1 /\
  self_blasts_list s'
  = filter (fun b => 0 <? blast_y b)
           (map advance_blast (self_blasts_list s1)).
Proof.
  intros H s2 s'. subst s'. rewrite (step_normal _ _ _ _ H).
  fold s2.
  pose proof (_check_blast_hits_same_player
                (_move_blasts (_move_asteroids s2))) as P.
  pose proof (_check_blast_hits_same_blasts
                (_move_blasts (_move_asteroids s2))) as B.
  destruct (_check_blast_hits (_move_blasts (_move_asteroids s2)))
    as [n s5 | e s5]; simpl in *;
    destruct P as (Px & Py & Pr & Ps); destruct B as (Bn & Bl);
    rewrite Px, Py, Pr, Bn, Bl;
    unfold _move_asteroids;
    destruct (respawn _ _) as [l g]; simpl; auto.
Qed.

Lemma handle_events_no_charge evs :
  forall s,
    self_blasts s = 0 ->
    handle_events evs s
    = handle_events (filter (fun e => negb (is_shoot e)) evs) s.
Proof.
  induction evs as [ | e r IH]; intros s H; simpl.
  - reflexivity.
  - destruct e as [ | [ | | | ] | ]; simpl; auto.
    unfold _shoot. rewrite H. simpl. apply IH. exact H.
Qed.

Lemma handle_events_before_quit evs :
  forall s,
    fst (handle_events evs s)
    = Nat.iter (shoots_before_quit evs) _shoot s.
Proof.
  unfold shoots_before_quit.
  induction evs as [ | e r IH]; intros s.
  - reflexivity.
  - destruct e as [ | [ | | | ] | ]; simpl; auto.
    rewrite IH, <- Nat.iter_succ_r. reflexivity.
Qed.

Lemma handle_events_In_quit evs s :
  In QUIT evs -> snd (handle_events evs s) = true.
Proof.
  intros H. rewrite handle_events_quit.
  apply existsb_exists. exists QUIT. split; [exact H | reflexivity].
Qed.

Lemma handle_events_no_quit evs s :
  ~ In QUIT evs -> snd (handle_events evs s) = false.
Proof.
  intros H. rewrite handle_events_quit.
  destruct (existsb _ evs) eqn:E; [ | reflexivity].
  apply existsb_exists in E. destruct E as (e & He & Hq).
  destruct e; try discriminate. contradiction.
Qed.

Lemma step_charge action inp s :
  0 <= self_blasts s <= MAX_BLASTS ->
  0 <= self_blasts (outcome_env (step action inp s)) <= MAX_BLASTS.
Proof.
  intros H.
  pose proof (handle_events_charge (event_get inp) s H) as C.
  destruct (handle_events (event_get inp) s) as [s1 q] eqn:E.
  destruct q.
  - rewrite (step_quit _ _ _ _ E). exact C.
  - destruct (step_normal_env action inp s s1 E) as (_ & _ & _ & B & _).
    rewrite B. exact C.
Qed.

Lemma step_position action inp s :
  250 <= self_x s <= 550 /\ 300 <= self_y s <= 450 ->
  250 <= self_x (outcome_env (step action inp s)) <= 550 /\
  300 <= self_y (outcome_env (step action inp s)) <= 450.
Proof.
  intros H.
  pose proof (handle_events_same_player (event_get inp) s) as P.
  destruct (handle_events (event_get inp) s) as [s1 q] eqn:E.
  destruct q.
  - rewrite (step_quit _ _ _ _ E). simpl in *.
    destruct P as (Px & Py & _). rewrite Px, Py. exact H.
  - destruct (step_normal_env action inp s s1 E) as (X & Y & _).
    rewrite X, Y. apply _move_player_bounds.
Qed.

Lemma reset_env t1 t2 g :
  snd (reset t1 t2 g)
  = mkEnv (WIDTH / 2) (HEIGHT * 3 / 4) 15 MAX_BLASTS t1 0 t2 true
          (fst (spawn_many ASTEROID_COUNT g)) []
          (snd (spawn_many ASTEROID_COUNT g)).
Proof.
  unfold reset. destruct (spawn_many ASTEROID_COUNT g). reflexivity.
Qed.

End StepFacts.

(** ** Player position (C7) *)

(** C7. After [reset] and after every call of [step] that returned, the
    player's x lies in [[WIDTH/2 - 150, WIDTH/2 + 150] = [250, 550]] and the
    player's y in [[0.5*HEIGHT, 0.75*HEIGHT] = [300, 450]]; and
    [_move_player] applies and clamps the forward move (which leaves x
    alone: y becomes [y - 3] clamped to [[300, 450]]) before it applies and
    clamps the sideways move (which leaves y alone: x loses 4 with LEFT
    held, gains 4 with RIGHT held, and is clamped to [[250, 550]]); a call
    of [step] without [QUIT] that returns leaves the player at exactly that
    position. *)
Theorem C7_player_position_bounds {T : Trig} (s : AsteroidEnv) :
  reachable s ->
  (WIDTH / 2 - 150 <= self_x s <= WIDTH / 2 + 150 /\
   250 <= self_x s <= 550) /\
  (HEIGHT / 2 <= self_y s <= HEIGHT * 3 / 4 /\
   300 <= self_y s <= 450) /\
  (forall keys s0,
      _move_player keys s0 = sideways_motion keys (forward_motion s0) /\
      self_x (forward_motion s0) = self_x s0 /\
      self_y (forward_motion s0)
      = np_clip (self_y s0 - PLAYER_SPEED) 300 450 /\
      self_y (sideways_motion keys (forward_motion s0))
      = self_y (forward_motion s0) /\
      self_x (sideways_motion keys (forward_motion s0))
      = Z.min (Z.max (self_x s0 - (if keys K_LEFT then 4 else 0)
                      + (if keys K_RIGHT then 4 else 0)) 250) 550 /\
      self_y (forward_motion s0) = Z.min (Z.max (self_y s0 - 3) 300) 450) /\
  (forall action inp r s',
      ~ In QUIT (event_get inp) ->
      step action inp s = Returned r s' ->
      self_y s' = Z.min (Z.max (self_y s - 3) 300) 450 /\
      self_x s'
      = Z.min (Z.max (self_x s
                      - (if get_pressed inp K_LEFT then 4 else 0)
                      + (if get_pressed inp K_RIGHT then 4 else 0)) 250) 550).
Proof.
  intros R.
  assert (B : 250 <= self_x s <= 550 /\ 300 <= self_y s <= 450).
  { induction R as [t1 t2 g | s action inp r s' R IH E].
    - rewrite reset_env. cbn [self_x self_y].
      change (WIDTH / 2) with 400. change (HEIGHT * 3 / 4) with 450. lia.
    - pose proof (step_position action inp s IH) as P.
      rewrite E in P. exact P. }
  assert (M : forall keys s0,
             self_x (sideways_motion keys (forward_motion s0))
             = Z.min (Z.max (self_x s0 - (if keys K_LEFT then 4 else 0)
                             + (if keys K_RIGHT then 4 else 0)) 250) 550 /\
             self_y (forward_motion s0)
             = Z.min (Z.max (self_y s0 - 3) 300) 450).
  { intros keys s0. unfold sideways_motion, forward_motion, np_clip.
    change (WIDTH / 2 - 150) with 250. change (WIDTH / 2 + 150) with 550.
    change (HEIGHT / 2) with 300. change (HEIGHT * 3 / 4) with 450.
    cbn [self_x self_y set_player]. unfold SIDE_SPEED, PLAYER_SPEED.
    destruct (keys K_LEFT), (keys K_RIGHT); split; lia. }
  change (WIDTH / 2 - 150) with 250. change (WIDTH / 2 + 150) with 550.
  change (HEIGHT / 2) with 300. change (HEIGHT * 3 / 4) with 450.
  split; [lia | ]. split; [lia | ]. split.
  - intros keys s0. destruct (M keys s0) as [Mx My].
    split; [reflexivity | ]. split; [reflexivity | ].
    split; [reflexivity | ]. split; [reflexivity | ].
    split; assumption.
  - intros action inp r s' NQ H.
    pose proof (handle_events_no_quit (event_get inp) s NQ) as Hq.
    pose proof (handle_events_same_player (event_get inp) s)
      as (Px & Py & _).
    destruct (handle_events (event_get inp) s) as [s1 q] eqn:E.
    cbn [snd fst] in *. subst q.
    destruct (step_normal_env action inp s s1 E) as (X & Y & _).
    rewrite H in X, Y. cbn [outcome_env] in X, Y.
    destruct (M (get_pressed inp) s1) as [Mx My].
    unfold _move_player in X, Y.
    rewrite X, Y, Mx. rewrite <- Px, <- Py. split; [ | reflexivity].
    change (self_y (sideways_motion (get_pressed inp) (forward_motion s1)))
      with (self_y (forward_motion s1)).
    exact My.
Qed.

Lemma C7_player_position_bounds_witness :
  250 <= self_x left_after <= 550 /\
  self_x left_after
  = Z.min (Z.max (self_x fresh_env
                  - (if get_pressed hold_left K_LEFT then 4 else 0)
                  + (if get_pressed hold_left K_RIGHT then 4 else 0))
                 250) 550.
Proof.
  assert (R0 : reachable (T := table_trig) fresh_env) by apply reach_reset.
  assert (NQ : ~ In QUIT (event_get hold_left)) by (intros []).
  assert (H : step (T := table_trig) PyNone hold_left fresh_env
              = Returned left_result left_after)
    by reflexivity.
  assert (R1 : reachable (T := table_trig) left_after)
    by exact (reach_step fresh_env PyNone hold_left left_result left_after
                R0 H).
  split.
  - exact (proj2 (proj1 (C7_player_position_bounds (T := table_trig)
                           left_after R1))).
  - exact (proj2 (proj2 (proj2 (proj2
             (C7_player_position_bounds (T := table_trig) fresh_env R0)))
             PyNone hold_left left_result left_after NQ H)).
Defined.

(** ** Projectile charge (C8) *)

Lemma _shoot_cases (s : AsteroidEnv) :
  (0 < self_blasts s /\
   self_x (_shoot s) = self_x s /\ self_y (_shoot s) = self_y s /\
   self_blasts (_shoot s) = self_blasts s - 1 /\
   self_blasts_list (_shoot s)
   = self_blasts_list s ++ [mkBlast (self_x s) (self_y s)]) \/
  (self_blasts s <= 0 /\ _shoot s = s).
Proof.
  unfold _shoot. destruct (0 <? self_blasts s) eqn:P.
  - apply Z.ltb_lt in P. left. repeat split. exact P.
  - apply Z.ltb_ge in P. right. split; [exact P | reflexivity].
Qed.

Lemma iter_shoot (n : nat) (s : AsteroidEnv) :
  0 <= self_blasts s ->
  self_x (Nat.iter n _shoot s) = self_x s /\
  self_y (Nat.iter n _shoot s) = self_y s /\
  self_blasts (Nat.iter n _shoot s)
  = Z.max 0 (self_blasts s - Z.of_nat n) /\
  self_blasts_list (Nat.iter n _shoot s)
  = self_blasts_list s
    ++ repeat (mkBlast (self_x s) (self_y s))
              (Nat.min n (Z.to_nat (self_blasts s))).
Proof.
  intros C. induction n as [ | n (IHx & IHy & IHc & IHl)].
  - change (Nat.iter 0 _shoot s) with s. cbn [Nat.min repeat].
    rewrite app_nil_r.
    split; [reflexivity | ]. split; [reflexivity | ].
    split; [lia | reflexivity].
  - change (Nat.iter (S n) _shoot s) with (_shoot (Nat.iter n _shoot s)).
    set (s0 := Nat.iter n _shoot s) in *.
    destruct (_shoot_cases s0) as [(P & Hx & Hy & Hc & Hl) | (P & E)].
    + rewrite Hx, Hy, Hc, Hl, IHx, IHy, IHl, IHc.
      split; [reflexivity | ]. split; [reflexivity | ]. split; [lia | ].
      replace (Nat.min (S n) (Z.to_nat (self_blasts s))) with (S n) by lia.
      replace (Nat.min n (Z.to_nat (self_blasts s))) with n by lia.
      rewrite <- app_assoc. f_equal. symmetry. apply repeat_cons.
    + rewrite E, IHx, IHy, IHl, IHc.
      split; [reflexivity | ]. split; [reflexivity | ]. split; [lia | ].
      replace (Nat.min (S n) (Z.to_nat (self_blasts s)))
        with (Nat.min n (Z.to_nat (self_blasts s))) by lia.
      reflexivity.
Qed.

(** C8. In every reachable state the charge lies in [[0, MAX_BLASTS]];
    [reset] sets it to [MAX_BLASTS]; [_shoot] with a positive charge takes
    one off and appends exactly one projectile at the player's position;
    [_shoot] with charge 0 changes nothing, and the shoot requests of a tick
    then have no effect on what [step] does (its outcome, reward included,
    is that of the same tick without them).  The event loop of [step]
    serves every space-bar [KEYDOWN] it meets before [QUIT] through
    [_shoot]: [n] requests at charge [c] leave the charge [max 0 (c - n)]
    and append [min n c] projectiles at the player's position, and a tick
    without [QUIT] that returns leaves that charge and those projectiles,
    advanced and filtered. *)
Theorem C8_charge_bounds {T : Trig} (s : AsteroidEnv) :
  reachable s ->
  0 <= self_blasts s <= MAX_BLASTS /\
  (forall t1 t2 g, self_blasts (snd (reset t1 t2 g)) = MAX_BLASTS) /\
  (0 < self_blasts s ->
   self_blasts (_shoot s) = self_blasts s - 1 /\
   self_blasts_list (_shoot s)
   = self_blasts_list s ++ [mkBlast (self_x s) (self_y s)]) /\
  (self_blasts s = 0 ->
   _shoot s = s /\
   forall action inp,
     step action inp s
     = step action
            (mkInput (get_pressed inp)
                     (filter (fun e => negb (is_shoot e)) (event_get inp)))
            s) /\
  (forall evs,
      (~ In QUIT evs ->
       shoots_before_quit evs = List.length (filter is_shoot evs)) /\
      self_blasts (fst (handle_events evs s))
      = Z.max 0 (self_blasts s - Z.of_nat (shoots_before_quit evs)) /\
      self_blasts_list (fst (handle_events evs s))
      = self_blasts_list s
        ++ repeat (mkBlast (self_x s) (self_y s))
                  (Nat.min (shoots_before_quit evs)
                           (Z.to_nat (self_blasts s)))) /\
  (forall action inp r s',
      ~ In QUIT (event_get inp) ->
      step action inp s = Returned r s' ->
      self_blasts s'
      = Z.max 0 (self_blasts s
                 - Z.of_nat (List.length
                               (filter is_shoot (event_get inp)))) /\
      self_blasts_list s'
      = filter (fun b => 0 <? blast_y b)
               (map advance_blast
                    (self_blasts_list s
                     ++ repeat (mkBlast (self_x s) (self_y s))
                               (Nat.min
                                  (List.length
                                     (filter is_shoot (event_get inp)))
                                  (Z.to_nat (self_blasts s)))))).
Proof.
  intros R.
  assert (C : 0 <= self_blasts s <= MAX_BLASTS).
  { induction R as [t1 t2 g | s action inp r s' R IH E].
    + rewrite reset_env. cbn [self_blasts]. unfold MAX_BLASTS. lia.
    + pose proof (step_charge action inp s IH) as P.
      rewrite E in P. exact P. }
  assert (Q : forall evs,
             ~ In QUIT evs ->
             shoots_before_quit evs = List.length (filter is_shoot evs)).
  { intros evs NQ. unfold shoots_before_quit. f_equal. f_equal.
    induction evs as [ | e r IH]; [reflexivity | ].
    destruct e as [ | k | ].
    - exfalso. apply NQ. left. reflexivity.
    - cbn [before_quit]. f_equal. apply IH.
      intros I. apply NQ. right. exact I.
    - cbn [before_quit]. f_equal. apply IH.
      intros I. apply NQ. right. exact I. }
  assert (E : forall evs,
             self_blasts (fst (handle_events evs s))
             = Z.max 0 (self_blasts s - Z.of_nat (shoots_before_quit evs)) /\
             self_blasts_list (fst (handle_events evs s))
             = self_blasts_list s
               ++ repeat (mkBlast (self_x s) (self_y s))
                         (Nat.min (shoots_before_quit evs)
                                  (Z.to_nat (self_blasts s)))).
  { intros evs. rewrite handle_events_before_quit.
    destruct (iter_shoot (shoots_before_quit evs) s (proj1 C))
      as (_ & _ & Hc & Hl).
    split; assumption. }
  split; [exact C | ]. split; [ | split; [ | split; [ | split; [ | ]]]].
  - intros t1 t2 g. rewrite reset_env. reflexivity.
  - intros H. unfold _shoot.
    apply Z.ltb_lt in H. rewrite H. split; reflexivity.
  - intros H. split.
    + unfold _shoot. rewrite H. reflexivity.
    + intros action inp. unfold step. simpl.
      rewrite (handle_events_no_charge (event_get inp) s H). reflexivity.
  - intros evs. split; [apply Q | apply E].
  - intros action inp r s' NQ H.
    pose proof (handle_events_no_quit (event_get inp) s NQ) as Hq.
    destruct (E (event_get inp)) as [Ec El].
    rewrite (Q _ NQ) in Ec, El.
    destruct (handle_events (event_get inp) s) as [s1 q] eqn:Ev.
    cbn [snd fst] in *. subst q.
    destruct (step_normal_env action inp s s1 Ev) as (_ & _ & _ & Bn & Bl).
    rewrite H in Bn, Bl. cbn [outcome_env] in Bn, Bl.
    rewrite Bn, Bl, Ec, El. split; reflexivity.
Qed.

Lemma C8_charge_bounds_witness :
  0 <= self_blasts shot_after <= MAX_BLASTS /\
  self_blasts shot_after
  = Z.max 0 (self_blasts fresh_env
             - Z.of_nat (List.length
                           (filter is_shoot (event_get (fire 1))))) /\
  self_blasts_list shot_after
  = filter (fun b => 0 <? blast_y b)
           (map advance_blast
                (self_blasts_list fresh_env
                 ++ repeat (mkBlast (self_x fresh_env) (self_y fresh_env))
                           (Nat.min
                              (List.length
                                 (filter is_shoot (event_get (fire 1))))
                              (Z.to_nat (self_blasts fresh_env))))).
Proof.
  assert (R0 : reachable (T := table_trig) fresh_env) by apply reach_reset.
  assert (NQ : ~ In QUIT (event_get (fire 1))).
  { intros [I | []]. discriminate I. }
  assert (H : step (T := table_trig) PyNone (fire 1) fresh_env
              = Returned shot_result shot_after)
    by reflexivity.
  assert (R1 : reachable (T := table_trig) shot_after)
    by exact (reach_step fresh_env PyNone (fire 1) shot_result shot_after
                R0 H).
  split.
  - exact (proj1 (C8_charge_bounds (T := table_trig) shot_after R1)).
  - exact (proj2 (proj2 (proj2 (proj2 (proj2
             (C8_charge_bounds (T := table_trig) fresh_env R0)))))
             PyNone (fire 1) shot_result shot_after NQ H).
Defined.

(** ** The action argument (C10) *)

(** C10. [step] never reads its [action] argument: for every environment,
    every input read from pygame and every two action values, the outcome
    (the environment it leaves, and the observation, reward, done flag and
    info it returns, or the exception it raises) is the same.  Shooting is
    driven by the [KEYDOWN] events of the queue alone. *)
Theorem C10_step_ignores_action {T : Trig}
        (a1 a2 : PyValue) (inp : Input) (s : AsteroidEnv) :
  step a1 inp s = step a2 inp s.
Proof.
  unfold step.
  destruct (handle_events (event_get inp) s) as [s1 q].
  destruct q; reflexivity.
Qed.

(** ** The quit signal (C2) *)

(** C2, as stated, fails: a shoot request queued before [QUIT] is served
    before the loop reaches [QUIT].  From the state after [reset], the queue
    [[KEYDOWN K_SPACE; QUIT]] makes [step] return the terminal result, yet
    the charge went from 5 to 4 and a projectile was appended. *)
Lemma C2_counterexample :
  let s := snd (reset (T := table_trig) 0 0 zero_tape) in
  let inp := mkInput no_keys [KEYDOWN K_SPACE; QUIT] in
  In QUIT (event_get inp) /\
  step (T := table_trig) PyNone inp s
  = Returned (mkResult None 0 true []) (_shoot s) /\
  self_blasts s = 5 /\ self_blasts (_shoot s) = 4 /\
  self_blasts_list s = [] /\
  self_blasts_list (_shoot s) = [mkBlast 400 450].
Proof.
  intros s inp.
  split; [right; left; reflexivity | ].
  split; [reflexivity | ].
  split; [reflexivity | ].
  split; [reflexivity | ].
  split; reflexivity.
Qed.

(** C2, amended.  When the queue holds [QUIT], [step] returns observation
    [None], reward 0, done and an empty info; the environment it leaves is
    the old one after one [_shoot] per [KEYDOWN K_SPACE] queued before the
    first [QUIT], and nothing else: the player's position and score, the
    asteroids and the generator are untouched, no projectile is advanced,
    and with no such shoot request the environment is unchanged. *)
Theorem C2_quit_short_circuits {T : Trig}
        (action : PyValue) (inp : Input) (s : AsteroidEnv) :
  In QUIT (event_get inp) ->
  let s' := Nat.iter (shoots_before_quit (event_get inp)) _shoot s in
  step action inp s = Returned (mkResult None 0 true []) s' /\
  same_player s s' /\ same_rocks s s' /\
  (shoots_before_quit (event_get inp) = 0%nat -> s' = s).
Proof.
  intros Q s'.
  pose proof (handle_events_In_quit (event_get inp) s Q) as Hq.
  pose proof (handle_events_before_quit (event_get inp) s) as Hs.
  pose proof (handle_events_same_player (event_get inp) s) as Hp.
  pose proof (handle_events_same_rocks (event_get inp) s) as Hr.
  destruct (handle_events (event_get inp) s) as [s1 q] eqn:E.
  simpl in Hq, Hs, Hp, Hr. subst q. fold s' in Hs. subst s1.
  split; [ | split; [ | split]].
  - apply step_quit. exact E.
  - exact Hp.
  - exact Hr.
  - intros Z. subst s'. rewrite Z. reflexivity.
Qed.

Lemma C2_quit_short_circuits_witness :
  In QUIT (event_get shot_quit_shot) /\
  step (T := table_trig) (PyInt 1) shot_quit_shot fresh_env
  = Returned (mkResult None 0 true [])
             (Nat.iter (shoots_before_quit (event_get shot_quit_shot))
                       _shoot fresh_env).
Proof.
  assert (H : In QUIT (event_get shot_quit_shot))
    by (right; left; reflexivity).
  split.
  - exact H.
  - exact (proj1 (C2_quit_short_circuits (T := table_trig) (PyInt 1)
                    shot_quit_shot fresh_env H)).
Defined.

(** ** Asteroids leaving the world (C4) *)

(** C4, as stated, fails: an asteroid that moves to [y = 590] with radius 15
    has its leading edge at [605 > HEIGHT], yet [_move_asteroids] keeps it
    and draws nothing from the generator. *)
Lemma C4_counterexample :
  let s := mkEnv 400 300 15 5 0 0 0 true [mkAsteroid 100 588 15 2] []
                 zero_tape in
  let a' := advance_asteroid (mkAsteroid 100 588 15 2) in
  HEIGHT < ast_y a' + ast_radius a' /\
  self_asteroids (_move_asteroids s) = [a'] /\
  pos (random_state (_move_asteroids s)) = pos (random_state s).
Proof.
  repeat split.
Qed.

Lemma is_spawn_ranges a :
  is_spawn a ->
  0 <= ast_x a <= WIDTH /\ - HEIGHT <= ast_y a <= 0 /\
  15 <= ast_radius a <= 40 /\ ast_speed a = ASTEROID_SPEED.
Proof.
  intros [g ->]. unfold _new_asteroid, randint, WIDTH, HEIGHT.
  cbn [fst ast_x ast_y ast_radius ast_speed tape pos].
  change (800 - 0 + 1) with 801. change (0 - Z.opp 600 + 1) with 601.
  change (40 - 15 + 1) with 26.
  pose proof (Z.mod_pos_bound (tape g (pos g)) 801 eq_refl).
  pose proof (Z.mod_pos_bound (tape g (S (pos g))) 601 eq_refl).
  pose proof (Z.mod_pos_bound (tape g (S (S (pos g)))) 26 eq_refl).
  repeat split; lia.
Qed.

Lemma spawn_many_is_spawn n :
  forall g, Forall is_spawn (fst (spawn_many n g)).
Proof.
  induction n as [ | k IH]; intros g; cbn [spawn_many].
  - constructor.
  - destruct (_new_asteroid g) as [a g1] eqn:E.
    specialize (IH g1). destruct (spawn_many k g1) as [l g2].
    cbn [fst] in *.
    constructor; [ | exact IH].
    exists g. rewrite E. reflexivity.
Qed.

Lemma respawn_advance_spec l :
  forall g,
    Forall2
      (fun a a' =>
         (ast_y a + ast_speed a - ast_radius a <= HEIGHT ->
          a' = advance_asteroid a) /\
         (HEIGHT < ast_y a + ast_speed a - ast_radius a -> is_spawn a'))
      l (fst (respawn (map advance_asteroid l) g)).
Proof.
  induction l as [ | a r IH]; intros g;
    cbn [map respawn advance_asteroid ast_y ast_radius].
  - constructor.
  - fold (advance_asteroid a).
    destruct (ast_y a + ast_speed a - ast_radius a <=? HEIGHT) eqn:E.
    + specialize (IH g).
      destruct (respawn (map advance_asteroid r) g) as [r' g'].
      cbn [fst] in *.
      constructor; [ | exact IH].
      apply Z.leb_le in E. split; [reflexivity | lia].
    + destruct (_new_asteroid g) as [n g1] eqn:N.
      specialize (IH g1).
      destruct (respawn (map advance_asteroid r) g1) as [r' g'].
      cbn [fst] in *.
      constructor; [ | exact IH].
      apply Z.leb_gt in E. split; [lia | ].
      intros _. exists g. rewrite N. reflexivity.
Qed.

(** C4, amended.  [_move_asteroids] advances every asteroid by its speed
    and then goes through the list in order: an asteroid whose trailing
    edge (the top of its circle, centre y minus radius) has passed the
    bottom bound, [y - radius > HEIGHT], is replaced on the spot by a fresh
    one; every other asteroid, also one whose leading edge is already
    below the bound, is kept.  Fresh ones are made by [_new_asteroid], as in
    [reset]: x in [[0, WIDTH]], y in [[-HEIGHT, 0]], radius in [[15, 40]],
    speed [ASTEROID_SPEED]. *)
Theorem C4_offscreen_asteroids_respawn (s : AsteroidEnv) :
  Forall2
    (fun a a' =>
       (ast_y a + ast_speed a - ast_radius a <= HEIGHT ->
        a' = advance_asteroid a) /\
       (HEIGHT < ast_y a + ast_speed a - ast_radius a -> is_spawn a'))
    (self_asteroids s) (self_asteroids (_move_asteroids s)) /\
  (forall (T : Trig) t1 t2 g,
      Forall is_spawn (self_asteroids (snd (reset t1 t2 g)))) /\
  (forall a,
      is_spawn a ->
      0 <= ast_x a <= WIDTH /\ - HEIGHT <= ast_y a <= 0 /\
      15 <= ast_radius a <= 40 /\ ast_speed a = ASTEROID_SPEED).
Proof.
  split; [ | split].
  - pose proof (respawn_advance_spec (self_asteroids s) (random_state s)) as H.
    unfold _move_asteroids.
    destruct (respawn _ _) as [l g]. exact H.
  - intros T t1 t2 g. rewrite reset_env. apply spawn_many_is_spawn.
  - exact is_spawn_ranges.
Qed.

(** ** Hit resolution (C3, C1) *)

Lemma Asteroid_eqb_eq a b : Asteroid_eqb a b = true -> a = b.
Proof.
  unfold Asteroid_eqb. intros H.
  apply andb_prop in H. destruct H as [H Hs].
  apply andb_prop in H. destruct H as [H Hr].
  apply andb_prop in H. destruct H as [Hx Hy].
  apply Z.eqb_eq in Hx, Hy, Hr, Hs.
  destruct a, b. simpl in *. congruence.
Qed.

Lemma list_remove_perm h l :
  forall l', list_remove h l = Some l' -> Permutation (h :: l') l.
Proof.
  induction l as [ | a r IH]; intros l' H; simpl in H.
  - discriminate.
  - destruct (Asteroid_eqb a h) eqn:E.
    + apply Asteroid_eqb_eq in E. inversion H. subst. apply Permutation_refl.
    + destruct (list_remove h r) as [r' | ]; [ | discriminate].
      inversion H. subst.
      eapply perm_trans; [apply perm_swap | ].
      apply perm_skip. apply IH. reflexivity.
Qed.

Lemma list_remove_In h l : In h l -> list_remove h l <> None.
Proof.
  induction l as [ | a r IH]; intros H; simpl.
  - contradiction.
  - destruct (Asteroid_eqb a h) eqn:E; [discriminate | ].
    destruct H as [-> | H].
    + unfold Asteroid_eqb in E. rewrite !Z.eqb_refl in E. discriminate.
    + specialize (IH H). destruct (list_remove h r); [discriminate | ].
      contradiction.
Qed.

(** A run of [replace_hits] that returns took every hit out of the list
    once and put one fresh asteroid in for it. *)
Lemma replace_hits_perm hits :
  forall s u s',
    replace_hits hits s = Returned u s' ->
    exists fresh,
      List.length fresh = List.length hits /\
      Forall is_spawn fresh /\
      Permutation (hits ++ self_asteroids s') (self_asteroids s ++ fresh).
Proof.
  induction hits as [ | h r IH]; intros s u s' H; cbn [replace_hits] in H.
  - inversion H. subst. exists []. repeat split.
    + constructor.
    + rewrite app_nil_r. apply Permutation_refl.
  - destruct (list_remove h (self_asteroids s)) as [l | ] eqn:R;
      [ | discriminate].
    destruct (_new_asteroid (random_state s)) as [n g] eqn:N.
    apply IH in H. destruct H as (fresh & Hl & Hf & Hp).
    cbn [self_asteroids set_asteroids] in Hp.
    exists (n :: fresh). split; [simpl; congruence | ]. split.
    + constructor; [ | exact Hf].
      exists (random_state s). rewrite N. reflexivity.
    + apply list_remove_perm in R.
      cbn [app].
      eapply perm_trans; [apply perm_skip; exact Hp | ].
      rewrite <- app_assoc. cbn [app].
      change (h :: l ++ n :: fresh) with ((h :: l) ++ n :: fresh).
      apply Permutation_app_tail. exact R.
Qed.

Lemma replace_hits_length hits s u s' :
  replace_hits hits s = Returned u s' ->
  List.length (self_asteroids s') = List.length (self_asteroids s).
Proof.
  intros H. apply replace_hits_perm in H.
  destruct H as (fresh & Hl & _ & Hp).
  apply Permutation_length in Hp. rewrite !length_app in Hp. lia.
Qed.

Lemma respawn_length l :
  forall g, List.length (fst (respawn l g)) = List.length l.
Proof.
  induction l as [ | a r IH]; intros g; cbn [respawn].
  - reflexivity.
  - destruct (ast_y a - ast_radius a <=? HEIGHT).
    + specialize (IH g). destruct (respawn r g) as [r' g'].
      cbn [fst List.length] in *. congruence.
    + destruct (_new_asteroid g) as [n g1].
      specialize (IH g1). destruct (respawn r g1) as [r' g'].
      cbn [fst List.length] in *. congruence.
Qed.

Lemma _move_asteroids_length s :
  List.length (self_asteroids (_move_asteroids s))
  = List.length (self_asteroids s).
Proof.
  pose proof (respawn_length (map advance_asteroid (self_asteroids s))
                             (random_state s)) as H.
  unfold _move_asteroids. destruct (respawn _ _) as [l g].
  cbn [fst self_asteroids set_asteroids] in *.
  rewrite H. apply length_map.
Qed.

Lemma spawn_many_length n :
  forall g, List.length (fst (spawn_many n g)) = n.
Proof.
  induction n as [ | k IH]; intros g; cbn [spawn_many].
  - reflexivity.
  - destruct (_new_asteroid g) as [a g1].
    specialize (IH g1). destruct (spawn_many k g1) as [l g2].
    cbn [fst List.length] in *. congruence.
Qed.


Lemma returned_eq {A : Type} (d : A) (o : outcome A) :
  is_raised o = false ->
  o = Returned (match o with Returned a _ => a | Raised _ _ => d end)
               (outcome_env o).
Proof. destruct o; [reflexivity | discriminate]. Qed.

Lemma raised_eq {A : Type} (o : outcome A) :
  is_raised o = true -> o = Raised ValueError (outcome_env o).
Proof. destruct o as [a s | [] s]; [discriminate | reflexivity]. Qed.

Section Population.

Context {T : Trig}.

(** A call of [step] that returns leaves as many asteroids as it found. *)
Lemma step_returned_count action inp s r s' :
  step action inp s = Returned r s' ->
  List.length (self_asteroids s') = List.length (self_asteroids s).
Proof.
  intros H.
  pose proof (handle_events_same_rocks (event_get inp) s) as [Ha _].
  destruct (handle_events (event_get inp) s) as [s1 q] eqn:E.
  cbn [fst] in Ha. destruct q.
  - rewrite (step_quit _ _ _ _ E) in H. inversion H. subst. congruence.
  - rewrite (step_normal _ _ _ _ E) in H.
    unfold _check_blast_hits in H.
    destruct (replace_hits _ _) as [u s5 | e s5] eqn:R; [ | discriminate].
    inversion H. subst. cbn [self_asteroids set_score].
    apply replace_hits_length in R. rewrite R.
    cbn [self_asteroids _move_blasts set_blasts].
    rewrite _move_asteroids_length.
    cbn [self_asteroids _move_player sideways_motion forward_motion
           set_player].
    congruence.
Qed.

Lemma reachable_count s :
  reachable s -> List.length (self_asteroids s) = ASTEROID_COUNT.
Proof.
  induction 1 as [t1 t2 g | s action inp r s' R IH E].
  - rewrite reset_env. cbn [self_asteroids]. apply spawn_many_length.
  - rewrite (step_returned_count _ _ _ _ _ E). exact IH.
Qed.

Lemma run_reachable inps :
  forall s,
    reachable s ->
    is_raised (run inps s) = false ->
    reachable (outcome_env (run inps s)).
Proof.
  induction inps as [ | i rest IH]; intros s R H; cbn [run] in *.
  - exact R.
  - destruct (step PyNone i s) as [r s1 | e s1] eqn:E; [ | discriminate].
    assert (R1 : reachable s1) by (eapply reach_step; eassumption).
    specialize (IH s1 R1).
    destruct (run rest s1) as [rs s2 | e s2]; [ | discriminate].
    apply IH. reflexivity.
Qed.

End Population.

(** C1: the code breaks the claim.  From [reset] with an asteroid at
    [(400, 0)] of radius 40, two presses of the space bar in the first tick
    put two projectiles at the same point; 44 idle ticks later the state is
    reachable, has [ASTEROID_COUNT] asteroids, and both projectiles are
    about to enter that asteroid.  In the next call of [step] both record
    the same asteroid as hit, the second [remove] finds it gone, and [step]
    raises [ValueError] instead of completing. *)
Theorem C1_double_hit_raises {T : Trig} :
  let before := run (fire 2 :: repeat idle 44) (snd (reset 0 0 centre_tape)) in
  let s45 := outcome_env before in
  is_raised before = false /\
  reachable s45 /\
  List.length (self_asteroids s45) = ASTEROID_COUNT /\
  self_blasts_list s45 = [mkBlast 400 135; mkBlast 400 135] /\
  hd_error (self_asteroids s45) = Some (mkAsteroid 400 90 40 2) /\
  collect_hits [mkBlast 400 128; mkBlast 400 128]
               (map advance_asteroid (self_asteroids s45))
  = [mkAsteroid 400 92 40 2; mkAsteroid 400 92 40 2] /\
  exists s', step PyNone idle s45 = Raised ValueError s'.
Proof.
  intros before s45.
  assert (B : is_raised before = false) by reflexivity.
  assert (R : reachable s45).
  { apply run_reachable; [apply reach_reset | exact B]. }
  split; [exact B | ]. split; [exact R | ].
  split; [apply reachable_count; exact R | ].
  split; [reflexivity | ]. split; [reflexivity | ].
  split; [reflexivity | ].
  exists (outcome_env (step PyNone idle s45)).
  apply raised_eq. reflexivity.
Qed.




(** ** The range finder (C5, C9) *)

Lemma py_range_lidar r :
  In r (py_range 0 LIDAR_RANGE 5) -> 0 <= r <= 195.
Proof.
  unfold py_range, LIDAR_RANGE.
  change (Z.to_nat ((200 - 0 + 5 - 1) / 5)) with 40%nat.
  intros H. apply in_map_iff in H. destruct H as (i & <- & Hi).
  apply in_seq in Hi. lia.
Qed.

Lemma find_all_false {A : Type} (f : A -> bool) (l : list A) :
  (forall x, In x l -> f x = false) -> find f l = None.
Proof.
  induction l as [ | a r IH]; intros H; simpl.
  - reflexivity.
  - rewrite (H a (or_introl eq_refl)). apply IH.
    intros x Hx. apply H. right. exact Hx.
Qed.

Lemma map_constant {A B : Type} (f : A -> B) (c : B) (l : list A) :
  (forall x, In x l -> f x = c) -> map f l = repeat c (List.length l).
Proof.
  induction l as [ | a r IH]; intros H; simpl.
  - reflexivity.
  - rewrite (H a (or_introl eq_refl)). f_equal. apply IH.
    intros x Hx. apply H. right. exact Hx.
Qed.

Lemma np_linspace_length start stop num :
  List.length (np_linspace start stop num) = num.
Proof. unfold np_linspace. rewrite length_map. apply length_seq. Qed.

Lemma normalised_range (d : Z) :
  0 <= d <= LIDAR_RANGE ->
  (0 <= Qred (inject_Z d / inject_Z LIDAR_RANGE) <= 1)%Q.
Proof.
  intros [H0 H1]. rewrite Qred_correct.
  rewrite Zle_Qle in H0, H1. unfold LIDAR_RANGE in *.
  split.
  - apply Qle_shift_div_l; [reflexivity | ].
    rewrite Qmult_0_l. exact H0.
  - apply Qle_shift_div_r; [reflexivity | ].
    rewrite Qmult_1_l. exact H1.
Qed.

Section SensorFacts.

Context {T : Trig}.

Lemma ray_dist_bounds s angle : 0 <= ray_dist s angle <= LIDAR_RANGE.
Proof.
  unfold ray_dist.
  destruct (find _ (py_range 0 LIDAR_RANGE 5)) as [r | ] eqn:F.
  - apply find_some in F. destruct F as [F _].
    apply py_range_lidar in F. unfold LIDAR_RANGE. lia.
  - unfold LIDAR_RANGE. lia.
Qed.

Lemma _get_lidar_length s : List.length (_get_lidar s) = LIDAR_RAYS.
Proof.
  unfold _get_lidar. rewrite length_map. apply np_linspace_length.
Qed.

Lemma _get_lidar_range s :
  Forall (fun v => (0 <= v <= 1)%Q) (_get_lidar s).
Proof.
  unfold _get_lidar. apply Forall_map. apply Forall_forall.
  intros angle _. apply normalised_range. apply ray_dist_bounds.
Qed.

Lemma reset_obs t1 t2 g :
  fst (reset t1 t2 g) = _get_observation (snd (reset t1 t2 g)).
Proof.
  unfold reset. destruct (spawn_many ASTEROID_COUNT g). reflexivity.
Qed.

(** With no asteroid and the player more than [LIDAR_RANGE] away from
    every bound, no sample of any ray stops the march. *)
Lemma ray_never_stops s angle r :
  trig_bounded T ->
  self_asteroids s = [] ->
  LIDAR_RANGE < self_x s < WIDTH - LIDAR_RANGE ->
  LIDAR_RANGE < self_y s < HEIGHT - LIDAR_RANGE ->
  0 <= r <= 195 ->
  ray_stops s (cos_deg angle) (sin_deg angle) r = false.
Proof.
  intros B E [X0 X1] [Y0 Y1] [R0 R1].
  destruct (B angle) as (C0 & C1 & S0 & S1).
  unfold ray_stops. rewrite E. cbn [existsb]. rewrite orb_false_r.
  unfold LIDAR_RANGE, WIDTH, HEIGHT in *.
  rewrite Zlt_Qlt in X0, X1, Y0, Y1. rewrite Zle_Qle in R0, R1.
  change (inject_Z (800 - 200)) with 600%Q in X1.
  change (inject_Z (600 - 200)) with 400%Q in Y1.
  change (inject_Z 200) with 200%Q in X0, Y0.
  change (inject_Z 195) with 195%Q in R1.
  change (inject_Z 0) with 0%Q in R0.
  change (inject_Z 800) with 800%Q. change (inject_Z 600) with 600%Q.
  set (x := inject_Z (self_x s)) in *.
  set (y := inject_Z (self_y s)) in *.
  set (q := inject_Z r) in *.
  set (c := cos_deg angle) in *. set (d := sin_deg angle) in *.
  assert (Hc : (- q <= c * q <= q)%Q) by (split; nra).
  assert (Hd : (- q <= d * q <= q)%Q) by (split; nra).
  assert (G1 : Qle_bool 0 (x + c * q) = true)
    by (apply Qle_bool_iff; lra).
  assert (G2 : Qle_bool 800 (x + c * q) = false).
  { destruct (Qle_bool 800 (x + c * q)) eqn:F; [ | reflexivity].
    apply Qle_bool_iff in F. lra. }
  assert (G3 : Qle_bool 0 (y + d * q) = true)
    by (apply Qle_bool_iff; lra).
  assert (G4 : Qle_bool 600 (y + d * q) = false).
  { destruct (Qle_bool 600 (y + d * q)) eqn:F; [ | reflexivity].
    apply Qle_bool_iff in F. lra. }
  rewrite G1, G2, G3, G4. reflexivity.
Qed.

End SensorFacts.

(** C5, as stated, fails on the quit path of [step], which returns [None]
    where the observation should be. *)
Lemma C5_counterexample :
  step (T := table_trig) PyNone (mkInput no_keys [QUIT]) fresh_env
  = Returned (mkResult None 0 true []) fresh_env /\
  forall o : list Q, obs (mkResult None 0 true []) <> Some o.
Proof.
  split; [reflexivity | ]. intros o. discriminate.
Qed.

(** C5, amended.  The observation returned by [reset], and the observation
    returned by [step] whenever its queue holds no [QUIT], is a sequence of
    exactly [LIDAR_RAYS = 24] values, each in [[0, 1]]; when the queue holds
    [QUIT], [step] returns [None] as observation. *)
Theorem C5_observation_shape {T : Trig} :
  LIDAR_RAYS = 24%nat /\
  (forall t1 t2 g,
      List.length (fst (reset t1 t2 g)) = LIDAR_RAYS /\
      Forall (fun v => (0 <= v <= 1)%Q) (fst (reset t1 t2 g))) /\
  (forall action inp s r s',
      step action inp s = Returned r s' ->
      (~ In QUIT (event_get inp) ->
       exists o,
         obs r = Some o /\ List.length o = LIDAR_RAYS /\
         Forall (fun v => (0 <= v <= 1)%Q) o) /\
      (In QUIT (event_get inp) -> obs r = None)).
Proof.
  split; [reflexivity | ]. split.
  - intros t1 t2 g. rewrite reset_obs. split.
    + apply _get_lidar_length.
    + apply _get_lidar_range.
  - intros action inp s r s' H. split.
    + intros NQ.
      pose proof (handle_events_no_quit (event_get inp) s NQ) as Hq.
      destruct (handle_events (event_get inp) s) as [s1 q] eqn:E.
      cbn [snd] in Hq. subst q.
      rewrite (step_normal _ _ _ _ E) in H.
      destruct (_check_blast_hits _) as [n s5 | e s5]; [ | discriminate].
      inversion H. subst. cbn [obs].
      eexists. split; [reflexivity | ]. split.
      * apply _get_lidar_length.
      * apply _get_lidar_range.
    + intros Q.
      pose proof (handle_events_In_quit (event_get inp) s Q) as Hq.
      destruct (handle_events (event_get inp) s) as [s1 q] eqn:E.
      cbn [snd] in Hq. subst q.
      rewrite (step_quit _ _ _ _ E) in H.
      inversion H. reflexivity.
Qed.

Lemma C5_observation_shape_witness :
  exists o,
    obs hit_result = Some o /\ List.length o = LIDAR_RAYS /\
    Forall (fun v => (0 <= v <= 1)%Q) o.
Proof.
  assert (NQ : ~ In QUIT (event_get idle)) by (intros []).
  assert (H : step (T := table_trig) PyNone idle hit_env
              = Returned hit_result hit_after)
    by reflexivity.
  exact (proj1 (proj2 (proj2 (C5_observation_shape (T := table_trig)))
                  PyNone idle hit_env hit_result hit_after H) NQ).
Defined.

Lemma nth_Forall {A : Type} (P : A -> Prop) (l : list A) (d : A) (n : nat) :
  Forall P l -> P d -> P (nth n l d).
Proof.
  intros H Hd. revert n.
  induction H as [ | a r Ha Hr IH]; intros [ | n]; simpl; auto.
Qed.

Lemma table_trig_bounded : trig_bounded table_trig.
Proof.
  assert (C : Forall (fun v => (-1 <= v)%Q /\ (v <= 1)%Q) cos_table).
  { unfold cos_table.
    repeat (constructor; [split; apply Qle_bool_imp_le; reflexivity | ]).
    constructor. }
  assert (S : Forall (fun v => (-1 <= v)%Q /\ (v <= 1)%Q) sin_table).
  { unfold sin_table.
    repeat (constructor; [split; apply Qle_bool_imp_le; reflexivity | ]).
    constructor. }
  intros a. cbn [cos_deg sin_deg table_trig]. unfold table_lookup.
  assert (Z0 : (-1 <= 0)%Q /\ (0 <= 1)%Q)
    by (split; apply Qle_bool_imp_le; reflexivity).
  pose proof (nth_Forall _ _ 0%Q
                (Z.to_nat (Qfloor (a / inject_Z 15) mod 24)) C Z0) as [? ?].
  pose proof (nth_Forall _ _ 0%Q
                (Z.to_nat (Qfloor (a / inject_Z 15) mod 24)) S Z0) as [? ?].
  repeat split; assumption.
Qed.

(** C9.  With no asteroid in the world and the player farther than
    [LIDAR_RANGE] from each of the four bounds, every ray records
    [LIDAR_RANGE] and every value of the observation is 1.  (The two
    library functions are only required to take values in [[-1, 1]].) *)
Theorem C9_clear_sensor {T : Trig} (s : AsteroidEnv) :
  trig_bounded T ->
  self_asteroids s = [] ->
  LIDAR_RANGE < self_x s < WIDTH - LIDAR_RANGE ->
  LIDAR_RANGE < self_y s < HEIGHT - LIDAR_RANGE ->
  (forall angle, ray_dist s angle = LIDAR_RANGE) /\
  _get_lidar s = repeat 1%Q LIDAR_RAYS /\
  _get_observation s = repeat 1%Q LIDAR_RAYS.
Proof.
  intros B E X Y.
  assert (D : forall angle, ray_dist s angle = LIDAR_RANGE).
  { intros angle. unfold ray_dist.
    rewrite find_all_false; [reflexivity | ].
    intros r Hr. apply py_range_lidar in Hr.
    apply ray_never_stops; assumption. }
  assert (L : _get_lidar s = repeat 1%Q LIDAR_RAYS).
  { unfold _get_lidar.
    rewrite map_constant with (c := 1%Q).
    - rewrite np_linspace_length. reflexivity.
    - intros angle _. rewrite D. reflexivity. }
  split; [exact D | ]. split; exact L.
Qed.

Lemma C9_clear_sensor_witness :
  _get_lidar (T := table_trig) clear_env = repeat 1%Q LIDAR_RAYS.
Proof.
  apply (C9_clear_sensor (T := table_trig) clear_env).
  - exact table_trig_bounded.
  - reflexivity.
  - unfold clear_env, LIDAR_RANGE, WIDTH. simpl. lia.
  - unfold clear_env, LIDAR_RANGE, HEIGHT. simpl. lia.
Defined.

(** ** Reward, termination and score (C6) *)

(** On integer points and an integer bound, [distance_le] is the comparison
    of the squared distance with the squared bound. *)
Lemma distance_le_Z (ax ay bx by' r : Z) :
  distance_le (zpoint ax ay) (zpoint bx by') (inject_Z r) = true <->
  0 <= r /\
  (ax - bx) * (ax - bx) + (ay - by') * (ay - by') <= r * r.
Proof.
  unfold distance_le, zpoint. cbn [fst snd].
  rewrite andb_true_iff, !Qle_bool_iff.
  unfold Qminus.
  rewrite <- !inject_Z_opp, <- !inject_Z_plus, <- !inject_Z_mult,
    <- !inject_Z_plus.
  change 0%Q with (inject_Z 0).
  rewrite <- !Zle_Qle.
  unfold Z.sub. tauto.
Qed.

Lemma collides_touches s a : collides s a = true <-> touches s a.
Proof. unfold collides, touches. apply distance_le_Z. Qed.

Lemma _check_collisions_true s :
  _check_collisions s = true <->
  exists a, In a (self_asteroids s) /\ touches s a.
Proof.
  unfold _check_collisions. rewrite existsb_exists.
  split; intros (a & Ha & Hc); exists a; split; try exact Ha;
    apply collides_touches; exact Hc.
Qed.

(** C6, as stated, fails: the collision test comes after hit resolution,
    not right after the movement updates.  From [reset] with an asteroid at
    [(400, 0)] of radius 40, 121 idle ticks and one tick with a shot lead to
    the player at [(400, 300)], a projectile at [(400, 293)] and the
    asteroid at [(400, 244)].  In the next tick, after the movement updates,
    the asteroid at [(400, 246)] is within 55 of the player; the projectile
    at [(400, 286)] then destroys it, and [step] returns reward 0.1 with
    done false. *)
Lemma C6_counterexample :
  let before :=
    run (T := table_trig) (repeat idle 121 ++ [fire 1])
        (snd (reset (T := table_trig) 0 0 centre_tape)) in
  let s122 := outcome_env before in
  let moved :=
    _move_blasts
      (_move_asteroids
         (_move_player (get_pressed idle)
                       (fst (handle_events (event_get idle) s122)))) in
  let after := step (T := table_trig) PyNone idle s122 in
  is_raised before = false /\
  (self_x moved, self_y moved, self_radius moved) = (400, 300, 15) /\
  hd_error (self_asteroids moved) = Some (mkAsteroid 400 246 40 2) /\
  collides moved (mkAsteroid 400 246 40 2) = true /\
  _check_collisions moved = true /\
  is_raised after = false /\
  match after with
  | Returned r _ => reward r = (1 # 10)%Q /\ done r = false
  | Raised _ _ => False
  end.
Proof.
  intros before s122 moved after.
  split; [reflexivity | ]. split; [reflexivity | ].
  split; [reflexivity | ]. split; [reflexivity | ].
  split; [reflexivity | ]. split; [reflexivity | ].
  assert (E : after
              = Returned (match after with
                          | Returned r _ => r
                          | Raised _ _ => mkResult None 0 true []
                          end) (outcome_env after))
    by (apply returned_eq; reflexivity).
  rewrite E. split; reflexivity.
Qed.

(** C6, amended.  In a tick without [QUIT] that returns, with the player
    and the asteroids as the tick leaves them (after the moves, the respawns
    and the hit resolution): if no asteroid's centre is within the sum of
    the two radii of the player's centre, the reward is 0.1 and done is
    false; if some asteroid's is, the reward is -10 and done is true; in
    both cases the score in info, and the score kept in the environment, is
    the previous score plus the reward of the tick, and alive is the
    negation of done. *)
Theorem C6_reward_law {T : Trig}
        (action : PyValue) (inp : Input) (s : AsteroidEnv)
        (r : StepResult) (s' : AsteroidEnv) :
  ~ In QUIT (event_get inp) ->
  step action inp s = Returned r s' ->
  ((forall a, In a (self_asteroids s') -> ~ touches s' a) ->
   reward r = (1 # 10)%Q /\ done r = false) /\
  ((exists a, In a (self_asteroids s') /\ touches s' a) ->
   reward r = (-10 # 1)%Q /\ done r = true) /\
  info r = [("score"%string, InfoFloat (self_score s + reward r)%Q);
            ("alive"%string, InfoBool (negb (done r)))] /\
  self_score s' = (self_score s + reward r)%Q.
Proof.
  intros NQ H.
  pose proof (handle_events_no_quit (event_get inp) s NQ) as Hq.
  pose proof (handle_events_same_player (event_get inp) s) as (_ & _ & _ & S1).
  destruct (handle_events (event_get inp) s) as [s1 q] eqn:E.
  cbn [snd] in Hq. cbn [fst] in S1. subst q.
  rewrite (step_normal _ _ _ _ E) in H.
  set (s4 := _move_blasts
               (_move_asteroids (_move_player (get_pressed inp) s1))) in *.
  assert (S4 : self_score s4 = self_score s).
  { subst s4. cbn [_move_blasts self_score set_blasts].
    destruct (_move_asteroids_same_player
                (_move_player (get_pressed inp) s1)) as (_ & _ & _ & ->).
    exact S1. }
  pose proof (_check_blast_hits_same_player s4) as (_ & _ & _ & S5).
  destruct (_check_blast_hits s4) as [n s5 | e s5]; [ | discriminate].
  cbn [outcome_env] in S5. cbv zeta in H.
  inversion H. subst r s'. clear H.
  cbn [reward done info self_score set_score self_asteroids].
  rewrite S5, S4.
  assert (K : forall a, touches (set_score
                  (self_score s
                   + (if negb (_check_collisions s5)
                      then (1 # 10)%Q else (-10 # 1)%Q))%Q s5) a
                        <-> touches s5 a) by (intros a; reflexivity).
  destruct (_check_collisions s5) eqn:C; cbn [negb].
  - split; [ | split; [ | split]]; try reflexivity.
    + intros N. exfalso.
      apply _check_collisions_true in C. destruct C as (a & Ha & Ht).
      apply (N a Ha). apply K. exact Ht.
    + intros _. split; reflexivity.
  - split; [ | split; [ | split]]; try reflexivity.
    + intros _. split; reflexivity.
    + intros (a & Ha & Ht). exfalso.
      assert (X : _check_collisions s5 = true).
      { apply _check_collisions_true. exists a. split; [exact Ha | ].
        apply K. exact Ht. }
      congruence.
Qed.

Lemma C6_reward_law_witness :
  (reward hit_result = (1 # 10)%Q /\ done hit_result = false) /\
  (reward crash_result = (-10 # 1)%Q /\ done crash_result = true).
Proof.
  assert (NQ : ~ In QUIT (event_get idle)) by (intros []).
  assert (H1 : step (T := table_trig) PyNone idle hit_env
               = Returned hit_result hit_after)
    by reflexivity.
  assert (H2 : step (T := table_trig) PyNone idle crash_env
               = Returned crash_result crash_after)
    by reflexivity.
  split.
  - apply (proj1 (C6_reward_law (T := table_trig)
                    PyNone idle hit_env hit_result hit_after NQ H1)).
    intros a [<- | []] [_ K]. simpl in K. lia.
  - apply (proj1 (proj2 (C6_reward_law (T := table_trig)
                    PyNone idle crash_env crash_result crash_after NQ H2))).
    exists (mkAsteroid 400 300 20 2). split; [left; reflexivity | ].
    unfold touches. simpl. lia.
Defined.

(** * Further properties of [main3.py] *)

(** ** What a tick returns and leaves *)

Lemma Forall2_right_origin {A B : Type} (R : A -> B -> Prop)
      (l : list A) (l' : list B) :
  Forall2 R l l' -> Forall (fun b => exists a, In a l /\ R a b) l'.
Proof.
  induction 1 as [ | a b l l' Hab H IH].
  - constructor.
  - constructor.
    + exists a. split; [left; reflexivity | exact Hab].
    + eapply Forall_impl; [ | exact IH].
      intros b' (a' & Ha' & Hr). exists a'. split; [right | ]; assumption.
Qed.

Section TickFacts.

Context {T : Trig}.

Lemma reachable_position s :
  reachable s -> 250 <= self_x s <= 550 /\ 300 <= self_y s <= 450.
Proof.
  induction 1 as [t1 t2 g | s action inp r s' R IH E].
  - rewrite reset_env. cbn [self_x self_y].
    change (WIDTH / 2) with 400. change (HEIGHT * 3 / 4) with 450. lia.
  - pose proof (step_position action inp s IH) as P.
    rewrite E in P. exact P.
Qed.

Lemma reachable_radius s : reachable s -> self_radius s = 15.
Proof.
  induction 1 as [t1 t2 g | s action inp r s' R IH E].
  - rewrite reset_env. reflexivity.
  - pose proof (handle_events_same_player (event_get inp) s)
      as (_ & _ & R1 & _).
    destruct (handle_events (event_get inp) s) as [s1 q] eqn:H.
    cbn [fst] in R1. destruct q.
    + rewrite (step_quit _ _ _ _ H) in E. inversion E. subst. congruence.
    + destruct (step_normal_env action inp s s1 H) as (_ & _ & R2 & _).
      rewrite E in R2. cbn [outcome_env] in R2. congruence.
Qed.

(** What a tick without [QUIT] that returns hands back, in terms of the
    environment it leaves. *)
Lemma step_normal_result action inp s r s' :
  ~ In QUIT (event_get inp) ->
  step action inp s = Returned r s' ->
  obs r = Some (_get_lidar s') /\
  done r = _check_collisions s' /\
  reward r = (if _check_collisions s' then (-10 # 1)%Q else (1 # 10)%Q) /\
  self_score s' = (self_score s + reward r)%Q.
Proof.
  intros NQ H.
  pose proof (handle_events_no_quit (event_get inp) s NQ) as Hq.
  pose proof (handle_events_same_player (event_get inp) s) as (_ & _ & _ & S1).
  destruct (handle_events (event_get inp) s) as [s1 q] eqn:E.
  cbn [snd] in Hq. cbn [fst] in S1. subst q.
  rewrite (step_normal _ _ _ _ E) in H.
  set (s4 := _move_blasts
               (_move_asteroids (_move_player (get_pressed inp) s1))) in *.
  assert (S4 : self_score s4 = self_score s).
  { subst s4. cbn [_move_blasts self_score set_blasts].
    destruct (_move_asteroids_same_player
                (_move_player (get_pressed inp) s1)) as (_ & _ & _ & ->).
    exact S1. }
  pose proof (_check_blast_hits_same_player s4) as (_ & _ & _ & S5).
  destruct (_check_blast_hits s4) as [n s5 | e s5]; [ | discriminate].
  cbn [outcome_env] in S5. cbv zeta in H.
  inversion H. subst r s'. clear H.
  cbn [obs done reward self_score set_score].
  rewrite S5, S4.
  change (_check_collisions (set_score
            (self_score s + (if negb (_check_collisions s5)
                             then (1 # 10)%Q else (-10 # 1)%Q))%Q s5))
    with (_check_collisions s5).
  destruct (_check_collisions s5); repeat split; reflexivity.
Qed.

(** Where the asteroids of a tick come from: each is freshly spawned, or
    is an asteroid of the tick before moved down by its speed and still
    with its top edge at or above the bottom bound. *)
Lemma step_asteroid_origin action inp s r s' :
  ~ In QUIT (event_get inp) ->
  step action inp s = Returned r s' ->
  Forall (fun a' =>
            is_spawn a' \/
            exists a, In a (self_asteroids s) /\
                      a' = advance_asteroid a /\
                      ast_y a' - ast_radius a' <= HEIGHT)
         (self_asteroids s').
Proof.
  intros NQ H.
  pose proof (handle_events_no_quit (event_get inp) s NQ) as Hq.
  pose proof (handle_events_same_rocks (event_get inp) s) as (A1 & _).
  destruct (handle_events (event_get inp) s) as [s1 q] eqn:E.
  cbn [snd] in Hq. cbn [fst] in A1. subst q.
  rewrite (step_normal _ _ _ _ E) in H.
  set (s2 := _move_player (get_pressed inp) s1) in *.
  set (P := fun a' : Asteroid =>
              is_spawn a' \/
              exists a, In a (self_asteroids s) /\
                        a' = advance_asteroid a /\
                        ast_y a' - ast_radius a' <= HEIGHT).
  assert (P3 : Forall P (self_asteroids (_move_asteroids s2))).
  { pose proof (respawn_advance_spec (self_asteroids s2) (random_state s2))
      as F.
    unfold _move_asteroids. destruct (respawn _ _) as [l g].
    cbn [fst self_asteroids set_asteroids] in *.
    apply Forall2_right_origin in F.
    eapply Forall_impl; [ | exact F].
    intros a' (a & Ha & Hk & Hn). unfold P.
    destruct (Z_le_gt_dec (ast_y a + ast_speed a - ast_radius a) HEIGHT)
      as [L | G].
    - right. exists a. split; [ | split].
      + rewrite <- A1. exact Ha.
      + apply Hk. exact L.
      + rewrite (Hk L). exact L.
    - left. apply Hn. lia. }
  unfold _check_blast_hits in H.
  destruct (replace_hits _ _) as [u s5 | e s5] eqn:R; [ | discriminate].
  inversion H. subst r s'. clear H.
  cbn [self_asteroids set_score].
  apply replace_hits_perm in R. destruct R as (fresh & _ & Hf & Hp).
  cbn [self_asteroids _move_blasts set_blasts] in Hp.
  assert (PA : Forall P (self_asteroids (_move_asteroids s2) ++ fresh)).
  { apply Forall_app. split; [exact P3 | ].
    eapply Forall_impl; [ | exact Hf]. intros a Ha. left. exact Ha. }
  apply (Permutation_Forall (Permutation_sym Hp)) in PA.
  apply Forall_app in PA. exact (proj2 PA).
Qed.

End TickFacts.

Lemma event_eq_dec (e1 e2 : event) : {e1 = e2} + {e1 <> e2}.
Proof. repeat decide equality. Qed.

Lemma quit_dec (evs : list event) : {In QUIT evs} + {~ In QUIT evs}.
Proof. apply in_dec. exact event_eq_dec. Qed.

Lemma _shoot_budget s :
  self_blasts (_shoot s) <= self_blasts s /\
  self_blasts (_shoot s) + Z.of_nat (List.length (self_blasts_list (_shoot s)))
  = self_blasts s + Z.of_nat (List.length (self_blasts_list s)).
Proof.
  unfold _shoot. destruct (0 <? self_blasts s).
  - cbn [self_blasts self_blasts_list set_blasts].
    rewrite length_app. cbn [List.length]. lia.
  - lia.
Qed.

Section Invariants.

Context {T : Trig}.

(** A call of [step] whose queue holds [QUIT]. *)
Lemma step_quit_env action inp s r s' :
  In QUIT (event_get inp) ->
  step action inp s = Returned r s' ->
  r = mkResult None 0 true [] /\
  s' = fst (handle_events (event_get inp) s) /\
  same_player s s' /\ same_rocks s s'.
Proof.
  intros Q H.
  pose proof (handle_events_In_quit (event_get inp) s Q) as Hq.
  pose proof (handle_events_same_player (event_get inp) s) as Hp.
  pose proof (handle_events_same_rocks (event_get inp) s) as Hr.
  destruct (handle_events (event_get inp) s) as [s1 q] eqn:E.
  cbn [snd fst] in *. subst q.
  rewrite (step_quit _ _ _ _ E) in H. inversion H. subst.
  repeat split; first [apply Hp | apply Hr].
Qed.

Lemma handle_events_budget evs :
  forall s,
    self_blasts (fst (handle_events evs s)) <= self_blasts s /\
    self_blasts (fst (handle_events evs s))
    + Z.of_nat (List.length (self_blasts_list (fst (handle_events evs s))))
    = self_blasts s + Z.of_nat (List.length (self_blasts_list s)).
Proof.
  induction evs as [ | e r IH]; intros s; cbn [handle_events].
  - cbn [fst]. lia.
  - destruct e as [ | [ | | | ] | ]; cbn [fst]; try apply IH; try lia.
    destruct (IH (_shoot s)) as [A B].
    destruct (_shoot_budget s) as [C D]. lia.
Qed.

Lemma step_budget action inp s r s' :
  step action inp s = Returned r s' ->
  self_blasts s' <= self_blasts s /\
  self_blasts s' + Z.of_nat (List.length (self_blasts_list s'))
  <= self_blasts s + Z.of_nat (List.length (self_blasts_list s)).
Proof.
  intros H.
  destruct (handle_events_budget (event_get inp) s) as [A B].
  destruct (quit_dec (event_get inp)) as [Q | NQ].
  - destruct (step_quit_env _ _ _ _ _ Q H) as (_ & -> & _). lia.
  - pose proof (handle_events_no_quit (event_get inp) s NQ) as Hq.
    destruct (handle_events (event_get inp) s) as [s1 q] eqn:E.
    cbn [snd fst] in *. subst q.
    destruct (step_normal_env action inp s s1 E) as (_ & _ & _ & Bn & Bl).
    rewrite H in Bn, Bl. cbn [outcome_env] in Bn, Bl.
    rewrite Bn, Bl.
    pose proof (filter_length_le (fun b => 0 <? blast_y b)
                  (map advance_blast (self_blasts_list s1))) as L.
    rewrite length_map in L. lia.
Qed.

(** X1.  The charge is never refilled during an episode: a call of [step]
    never raises it, and in every reachable state the charge plus the number
    of projectiles in flight is at most [MAX_BLASTS], so at most
    [MAX_BLASTS] shots are fired between two resets. *)
Theorem shots_are_never_recharged (s : AsteroidEnv) :
  reachable s ->
  0 <= self_blasts s /\
  self_blasts s + Z.of_nat (List.length (self_blasts_list s)) <= MAX_BLASTS /\
  (forall action inp r s',
      step action inp s = Returned r s' -> self_blasts s' <= self_blasts s).
Proof.
  intros R.
  assert (I : 0 <= self_blasts s /\
              self_blasts s + Z.of_nat (List.length (self_blasts_list s))
              <= MAX_BLASTS).
  { induction R as [t1 t2 g | s action inp r s' R IH E].
    - rewrite reset_env. cbn [self_blasts self_blasts_list List.length].
      unfold MAX_BLASTS. lia.
    - destruct (step_budget _ _ _ _ _ E) as [A B].
      pose proof (step_charge action inp s) as C.
      rewrite E in C. cbn [outcome_env] in C.
      unfold MAX_BLASTS in *. lia. }
  destruct I as [I0 I1]. split; [exact I0 | ]. split; [exact I1 | ].
  intros action inp r s' E. apply (step_budget _ _ _ _ _ E).
Qed.

Lemma handle_events_blast_box evs :
  forall s,
    250 <= self_x s <= 550 -> 300 <= self_y s <= 450 ->
    Forall (fun b => 250 <= blast_x b <= 550 /\ 0 < blast_y b <= 450)
           (self_blasts_list s) ->
    Forall (fun b => 250 <= blast_x b <= 550 /\ 0 < blast_y b <= 450)
           (self_blasts_list (fst (handle_events evs s))).
Proof.
  induction evs as [ | e r IH]; intros s X Y F; cbn [handle_events].
  - exact F.
  - destruct e as [ | [ | | | ] | ]; cbn [fst]; try (apply IH; assumption);
      try exact F.
    destruct (_shoot_same_player s) as (Px & Py & _).
    apply IH; try (rewrite ?Px, ?Py; assumption).
    unfold _shoot. destruct (0 <? self_blasts s); [ | exact F].
    cbn [self_blasts_list set_blasts].
    apply Forall_app. split; [exact F | ].
    constructor; [ | constructor]. cbn [blast_x blast_y]. lia.
Qed.

(** X2.  In every reachable state each projectile in flight lies in the
    player's horizontal band and strictly below the top bound:
    [250 <= x <= 550] and [0 < y <= 450]. *)
Theorem projectiles_stay_in_band (s : AsteroidEnv) :
  reachable s ->
  Forall (fun b => 250 <= blast_x b <= 550 /\ 0 < blast_y b <= 450)
         (self_blasts_list s).
Proof.
  induction 1 as [t1 t2 g | s action inp r s' R IH E].
  - rewrite reset_env. constructor.
  - destruct (reachable_position s R) as [X Y].
    pose proof (handle_events_blast_box (event_get inp) s X Y IH) as F.
    destruct (quit_dec (event_get inp)) as [Q | NQ].
    + destruct (step_quit_env _ _ _ _ _ Q E) as (_ & -> & _). exact F.
    + pose proof (handle_events_no_quit (event_get inp) s NQ) as Hq.
      destruct (handle_events (event_get inp) s) as [s1 q] eqn:H.
      cbn [snd fst] in *. subst q.
      destruct (step_normal_env action inp s s1 H) as (_ & _ & _ & _ & Bl).
      rewrite E in Bl. cbn [outcome_env] in Bl. rewrite Bl.
      apply Forall_forall. intros b Hb.
      apply filter_In in Hb. destruct Hb as [Hb Hy].
      apply in_map_iff in Hb. destruct Hb as (b0 & <- & Hb0).
      rewrite Forall_forall in F. specialize (F b0 Hb0).
      apply Z.ltb_lt in Hy. cbn [advance_blast blast_x blast_y] in *. lia.
Qed.

(** X3.  In every reachable state each asteroid has [0 <= x <= WIDTH],
    radius in [[15, 40]], speed [ASTEROID_SPEED], [y >= -HEIGHT], and its
    top edge at or above the bottom bound ([y - radius <= HEIGHT]). *)
Theorem asteroids_stay_in_box (s : AsteroidEnv) :
  reachable s ->
  Forall (fun a =>
            0 <= ast_x a <= WIDTH /\
            - HEIGHT <= ast_y a /\ ast_y a - ast_radius a <= HEIGHT /\
            15 <= ast_radius a <= 40 /\ ast_speed a = ASTEROID_SPEED)
         (self_asteroids s).
Proof.
  induction 1 as [t1 t2 g | s action inp r s' R IH E].
  - rewrite reset_env. cbn [self_asteroids].
    eapply Forall_impl; [ | apply spawn_many_is_spawn].
    intros a Ha. apply is_spawn_ranges in Ha. unfold HEIGHT in *. lia.
  - destruct (quit_dec (event_get inp)) as [Q | NQ].
    + destruct (step_quit_env _ _ _ _ _ Q E) as (_ & _ & _ & (A & _)).
      rewrite A. exact IH.
    + pose proof (step_asteroid_origin _ _ _ _ _ NQ E) as O.
      eapply Forall_impl; [ | exact O].
      intros a' [Ha | (a & Ha & -> & Hk)].
      * apply is_spawn_ranges in Ha. unfold HEIGHT in *. lia.
      * rewrite Forall_forall in IH. specialize (IH a Ha).
        cbn [advance_asteroid ast_x ast_y ast_radius ast_speed] in *.
        unfold ASTEROID_SPEED, HEIGHT in *. lia.
Qed.

End Invariants.

Lemma shots_are_never_recharged_witness :
  self_blasts fresh_env
  + Z.of_nat (List.length (self_blasts_list fresh_env)) <= MAX_BLASTS.
Proof.
  apply (shots_are_never_recharged (T := table_trig) fresh_env).
  apply reach_reset.
Defined.

Lemma projectiles_stay_in_band_witness :
  Forall (fun b => 250 <= blast_x b <= 550 /\ 0 < blast_y b <= 450)
         (self_blasts_list shot_after).
Proof.
  assert (R0 : reachable (T := table_trig) fresh_env) by apply reach_reset.
  assert (H : step (T := table_trig) PyNone (fire 1) fresh_env
              = Returned shot_result shot_after)
    by reflexivity.
  assert (R1 : reachable (T := table_trig) shot_after)
    by exact (reach_step fresh_env PyNone (fire 1) shot_result shot_after
                R0 H).
  exact (projectiles_stay_in_band (T := table_trig) shot_after R1).
Defined.

Lemma asteroids_stay_in_box_witness :
  Forall (fun a =>
            0 <= ast_x a <= WIDTH /\
            - HEIGHT <= ast_y a /\ ast_y a - ast_radius a <= HEIGHT /\
            15 <= ast_radius a <= 40 /\ ast_speed a = ASTEROID_SPEED)
         (self_asteroids fresh_env).
Proof.
  apply (asteroids_stay_in_box (T := table_trig) fresh_env).
  apply reach_reset.
Defined.

(** ** The player's track, the grace period and the score *)

Lemma step_normal_player {T : Trig} action inp s r s' :
  ~ In QUIT (event_get inp) ->
  step action inp s = Returned r s' ->
  self_radius s' = self_radius s /\
  self_y s' = np_clip (self_y s - PLAYER_SPEED) 300 450 /\
  self_x s'
  = np_clip (let x1 := if get_pressed inp K_LEFT
                       then self_x s - SIDE_SPEED else self_x s in
             if get_pressed inp K_RIGHT then x1 + SIDE_SPEED else x1)
            250 550.
Proof.
  intros NQ H.
  pose proof (handle_events_no_quit (event_get inp) s NQ) as Hq.
  pose proof (handle_events_same_player (event_get inp) s)
    as (Px & Py & Pr & _).
  destruct (handle_events (event_get inp) s) as [s1 q] eqn:E.
  cbn [snd fst] in *. subst q.
  destruct (step_normal_env action inp s s1 E) as (X & Y & R & _).
  rewrite H in X, Y, R. cbn [outcome_env] in X, Y, R.
  rewrite X, Y, R, Pr.
  unfold _move_player, sideways_motion, forward_motion.
  cbn [self_x self_y set_player]. rewrite Px, Py.
  repeat split; reflexivity.
Qed.

(** X4.  In a tick without [QUIT] from a reachable state the player moves
    up by [PLAYER_SPEED] until it rests on [y = 300]; sideways it keeps its
    x when LEFT and RIGHT are both held or both released, and otherwise
    moves by [SIDE_SPEED] towards the held side until it rests on the edge
    of the band [[250, 550]]. *)
Theorem player_motion_law {T : Trig}
        (action : PyValue) (inp : Input) (s : AsteroidEnv)
        (r : StepResult) (s' : AsteroidEnv) :
  reachable s ->
  ~ In QUIT (event_get inp) ->
  step action inp s = Returned r s' ->
  self_y s' = Z.max 300 (self_y s - 3) /\
  (get_pressed inp K_LEFT = get_pressed inp K_RIGHT ->
   self_x s' = self_x s) /\
  (get_pressed inp K_LEFT = true -> get_pressed inp K_RIGHT = false ->
   self_x s' = Z.max 250 (self_x s - 4)) /\
  (get_pressed inp K_LEFT = false -> get_pressed inp K_RIGHT = true ->
   self_x s' = Z.min 550 (self_x s + 4)).
Proof.
  intros R NQ H.
  destruct (reachable_position s R) as [X Y].
  destruct (step_normal_player _ _ _ _ _ NQ H) as (_ & Hy & Hx).
  rewrite Hy, Hx. unfold np_clip, PLAYER_SPEED, SIDE_SPEED.
  cbv zeta.
  destruct (get_pressed inp K_LEFT), (get_pressed inp K_RIGHT);
    repeat split; intros; try discriminate; lia.
Qed.

Lemma player_motion_law_witness :
  self_y fresh_after = Z.max 300 (self_y fresh_env - 3).
Proof.
  assert (R : reachable (T := table_trig) fresh_env) by apply reach_reset.
  assert (NQ : ~ In QUIT (event_get idle)) by (intros []).
  assert (H : step (T := table_trig) PyNone idle fresh_env
              = Returned fresh_result fresh_after)
    by reflexivity.
  exact (proj1 (player_motion_law (T := table_trig) PyNone idle fresh_env
                  fresh_result fresh_after R NQ H)).
Defined.

Section Runs.

Context {T : Trig}.

Lemma run_cons_inv i rest s rs s' :
  run (i :: rest) s = Returned rs s' ->
  exists r s1 rs',
    step PyNone i s = Returned r s1 /\
    run rest s1 = Returned rs' s' /\ rs = r :: rs'.
Proof.
  cbn [run]. intros H.
  destruct (step PyNone i s) as [r s1 | e s1] eqn:E; [ | discriminate].
  destruct (run rest s1) as [rs' s2 | e s2] eqn:F; [ | discriminate].
  inversion H. subst. exists r, s1, rs'.
  split; [reflexivity | ]. split; [exact F | reflexivity].
Qed.

Lemma run_forward inps :
  forall s rs s',
    300 <= self_y s <= 450 ->
    Forall (fun i => ~ In QUIT (event_get i)) inps ->
    run inps s = Returned rs s' ->
    self_y s' = Z.max 300 (self_y s - 3 * Z.of_nat (List.length inps)).
Proof.
  induction inps as [ | i rest IH]; intros s rs s' Y F H.
  - cbn [run] in H. inversion H. subst. cbn [List.length]. lia.
  - apply run_cons_inv in H. destruct H as (r & s1 & rs' & E & H & _).
    inversion F as [ | i0 rest0 NQ F']. subst.
    destruct (step_normal_player _ _ _ _ _ NQ E) as (_ & Hy & _).
    unfold np_clip, PLAYER_SPEED in Hy.
    assert (Y1 : 300 <= self_y s1 <= 450) by lia.
    rewrite (IH s1 rs' s' Y1 F' H). cbn [List.length]. lia.
Qed.

(** X5.  The forward travel does not depend on the input: after [n] ticks
    without [QUIT], all of which returned, from a state with the player in
    its vertical band [[300, 450]], the player is at
    [y = max 300 (y0 - 3 n)]; from [reset] that is [max 300 (450 - 3 n)],
    so after 50 ticks the player rests on [y = 300]. *)
Theorem player_forward_track
        (inps : list Input) (s : AsteroidEnv)
        (rs : list StepResult) (s' : AsteroidEnv) :
  300 <= self_y s <= 450 ->
  Forall (fun i => ~ In QUIT (event_get i)) inps ->
  run inps s = Returned rs s' ->
  self_y s' = Z.max 300 (self_y s - 3 * Z.of_nat (List.length inps)) /\
  (forall t1 t2 g,
      s = snd (reset t1 t2 g) ->
      self_y s' = Z.max 300 (450 - 3 * Z.of_nat (List.length inps)) /\
      ((50 <= List.length inps)%nat -> self_y s' = 300)).
Proof.
  intros Y F H.
  pose proof (run_forward inps s rs s' Y F H) as E.
  split; [exact E | ].
  intros t1 t2 g ->. rewrite reset_env in E. cbn [self_y] in E.
  change (HEIGHT * 3 / 4) with 450 in E. split; [exact E | lia].
Qed.

(** Asteroids no lower than [B], as wide and as fast as spawned ones. *)
Lemma step_keeps_low action inp s r s' (B : Z) :
  0 <= B ->
  Forall (fun a => ast_y a <= B /\ ast_radius a <= 40 /\ ast_speed a = 2)
         (self_asteroids s) ->
  step action inp s = Returned r s' ->
  Forall (fun a => ast_y a <= B + 2 /\ ast_radius a <= 40 /\ ast_speed a = 2)
         (self_asteroids s').
Proof.
  intros HB F H.
  destruct (quit_dec (event_get inp)) as [Q | NQ].
  - destruct (step_quit_env _ _ _ _ _ Q H) as (_ & _ & _ & (A & _)).
    rewrite A. eapply Forall_impl; [ | exact F].
    intros a (Ha & Hr & Hs). repeat split; try assumption. lia.
  - pose proof (step_asteroid_origin _ _ _ _ _ NQ H) as O.
    eapply Forall_impl; [ | exact O].
    intros a' [Ha | (a & Ha & -> & _)].
    + apply is_spawn_ranges in Ha. unfold ASTEROID_SPEED in Ha. lia.
    + rewrite Forall_forall in F. specialize (F a Ha).
      cbn [advance_asteroid ast_y ast_radius ast_speed]. lia.
Qed.

(** With every asteroid above [y = 245] the player, at [y >= 300] with
    radius 15, touches none. *)
Lemma no_collision_above s (B : Z) :
  B < 245 ->
  300 <= self_y s ->
  self_radius s = 15 ->
  Forall (fun a => ast_y a <= B /\ ast_radius a <= 40 /\ ast_speed a = 2)
         (self_asteroids s) ->
  _check_collisions s = false.
Proof.
  intros HB Y R F.
  destruct (_check_collisions s) eqn:C; [ | reflexivity].
  apply _check_collisions_true in C. destruct C as (a & Ha & H0 & H1).
  rewrite Forall_forall in F. destruct (F a Ha) as (Fy & Fr & _).
  rewrite R in *. exfalso.
  assert (D : 56 <= self_y s - ast_y a) by lia.
  assert (D2 : 56 * 56 <= (self_y s - ast_y a) * (self_y s - ast_y a))
    by nia.
  assert (X2 : 0 <= (self_x s - ast_x a) * (self_x s - ast_x a))
    by apply Z.square_nonneg.
  assert (R2 : (15 + ast_radius a) * (15 + ast_radius a) <= 55 * 55)
    by (apply Z.mul_le_mono_nonneg; lia).
  lia.
Qed.

Lemma run_grace inps :
  forall s (B : Z) rs s',
    0 <= B ->
    self_radius s = 15 ->
    Forall (fun a => ast_y a <= B /\ ast_radius a <= 40 /\ ast_speed a = 2)
           (self_asteroids s) ->
    B + 2 * Z.of_nat (List.length inps) < 245 ->
    run inps s = Returned rs s' ->
    Forall (fun r => done r = true -> obs r = None) rs.
Proof.
  induction inps as [ | i rest IH]; intros s B rs s' HB R F L H.
  - cbn [run] in H. inversion H. constructor.
  - apply run_cons_inv in H. destruct H as (r & s1 & rs' & E & H & ->).
    cbn [List.length] in L.
    pose proof (step_keeps_low _ _ _ _ _ B HB F E) as F1.
    assert (R1 : self_radius s1 = 15).
    { destruct (quit_dec (event_get i)) as [Q | NQ].
      - destruct (step_quit_env _ _ _ _ _ Q E) as (_ & _ & (_ & _ & P & _) & _).
        congruence.
      - destruct (step_normal_player _ _ _ _ _ NQ E) as (P & _). congruence. }
    constructor.
    + destruct (quit_dec (event_get i)) as [Q | NQ].
      * destruct (step_quit_env _ _ _ _ _ Q E) as (-> & _). reflexivity.
      * intros D. exfalso.
        destruct (step_normal_result _ _ _ _ _ NQ E) as (_ & Hd & _).
        destruct (step_normal_player _ _ _ _ _ NQ E) as (_ & Hy & _).
        unfold np_clip in Hy.
        rewrite (no_collision_above s1 (B + 2)) in Hd;
          [congruence | lia | lia | exact R1 | exact F1].
    + apply (IH s1 (B + 2) rs' s'); try assumption; lia.
Qed.

(** X6.  No collision can end an episode during the first 122 ticks after
    [reset]: in a run of at most 122 calls of [step] from the state [reset]
    leaves, a result with [done] set can only be the quit result (the one
    whose observation is [None]). *)
Theorem no_collision_in_first_ticks
        (t1 t2 : Q) (g : Rng) (inps : list Input)
        (rs : list StepResult) (s' : AsteroidEnv) :
  (List.length inps <= 122)%nat ->
  run inps (snd (reset t1 t2 g)) = Returned rs s' ->
  Forall (fun r => done r = true -> obs r = None) rs.
Proof.
  intros L H.
  apply (run_grace inps (snd (reset t1 t2 g)) 0 rs s'); try assumption.
  - lia.
  - rewrite reset_env. reflexivity.
  - rewrite reset_env. cbn [self_asteroids].
    eapply Forall_impl; [ | apply spawn_many_is_spawn].
    intros a Ha. apply is_spawn_ranges in Ha. unfold ASTEROID_SPEED in Ha.
    lia.
  - lia.
Qed.

Lemma run_score inps :
  forall s rs s',
    run inps s = Returned rs s' ->
    self_score s'
    = fold_left Qplus
                (map reward (filter (fun r => negb (is_quit_result r)) rs))
                (self_score s).
Proof.
  induction inps as [ | i rest IH]; intros s rs s' H.
  - cbn [run] in H. inversion H. subst. reflexivity.
  - apply run_cons_inv in H. destruct H as (r & s1 & rs' & E & H & ->).
    rewrite (IH s1 rs' s' H). cbn [filter].
    destruct (quit_dec (event_get i)) as [Q | NQ].
    + destruct (step_quit_env _ _ _ _ _ Q E) as (-> & _ & (_ & _ & _ & P) & _).
      rewrite P. reflexivity.
    + destruct (step_normal_result _ _ _ _ _ NQ E) as (O & _ & _ & P).
      unfold is_quit_result. rewrite O. cbn [negb map fold_left].
      rewrite P. reflexivity.
Qed.

(** X7.  Over any run of calls of [step] that all returned there is one
    result per call, and the score kept in the environment is the score at
    the start with the rewards of the ticks that did not take the quit path
    added to it one after the other, in tick order (a quit tick leaves the
    score as it is).  The equation is between the very chains of additions,
    so it does not rest on the additions being exact. *)
Theorem score_is_sum_of_rewards
        (inps : list Input) (s : AsteroidEnv)
        (rs : list StepResult) (s' : AsteroidEnv) :
  run inps s = Returned rs s' ->
  List.length rs = List.length inps /\
  self_score s'
  = fold_left Qplus
              (map reward (filter (fun r => negb (is_quit_result r)) rs))
              (self_score s).
Proof.
  intros H. split; [ | apply (run_score inps s rs s' H)].
  revert s rs s' H.
  induction inps as [ | i rest IH]; intros s rs s' H.
  - cbn [run] in H. inversion H. reflexivity.
  - apply run_cons_inv in H. destruct H as (r & s1 & rs' & E & H & ->).
    cbn [List.length]. f_equal. apply (IH s1 rs' s' H).
Qed.

End Runs.

Lemma player_forward_track_witness :
  self_y hit_after
  = Z.max 300 (self_y hit_env - 3 * Z.of_nat (List.length [idle])).
Proof.
  assert (Y : 300 <= self_y hit_env <= 450) by (cbn; lia).
  assert (F : Forall (fun i => ~ In QUIT (event_get i)) [idle]).
  { constructor; [intros [] | constructor]. }
  assert (H : run (T := table_trig) [idle] hit_env
              = Returned [hit_result] hit_after)
    by reflexivity.
  exact (proj1 (player_forward_track (T := table_trig) [idle] hit_env
                  [hit_result] hit_after Y F H)).
Defined.

Lemma no_collision_in_first_ticks_witness :
  Forall (fun r => done r = true -> obs r = None) [fresh_result].
Proof.
  assert (L : (List.length [idle] <= 122)%nat) by (cbn; lia).
  assert (H : run (T := table_trig) [idle]
                  (snd (reset (T := table_trig) 0 0 zero_tape))
              = Returned [fresh_result] fresh_after)
    by reflexivity.
  exact (no_collision_in_first_ticks (T := table_trig) 0 0 zero_tape [idle]
           [fresh_result] fresh_after L H).
Defined.

Lemma score_is_sum_of_rewards_witness :
  self_score shot_after
  = fold_left Qplus
              (map reward
                   (filter (fun r => negb (is_quit_result r))
                           [shot_result; mkResult None 0 true []]))
              (self_score fresh_env).
Proof.
  assert (H : run (T := table_trig) [fire 1; close_window] fresh_env
              = Returned [shot_result; mkResult None 0 true []] shot_after)
    by reflexivity.
  exact (proj2 (score_is_sum_of_rewards (T := table_trig)
                  [fire 1; close_window] fresh_env
                  [shot_result; mkResult None 0 true []] shot_after H)).
Defined.

(** ** When hit resolution raises *)

Lemma list_remove_keeps h h' l :
  forall l', list_remove h l = Some l' -> h' <> h -> In h' l -> In h' l'.
Proof.
  induction l as [ | a r IH]; intros l' H N I; cbn [list_remove] in H.
  - discriminate.
  - destruct (Asteroid_eqb a h) eqn:E.
    + apply Asteroid_eqb_eq in E. inversion H. subst.
      destruct I as [I | I]; [congruence | exact I].
    + destruct (list_remove h r) as [r' | ] eqn:R; [ | discriminate].
      inversion H. subst.
      destruct I as [I | I]; [left; exact I | right].
      apply IH; auto.
Qed.

Lemma replace_hits_returns hits :
  forall s,
    NoDup hits ->
    (forall h, In h hits -> In h (self_asteroids s)) ->
    exists s', replace_hits hits s = Returned tt s'.
Proof.
  induction hits as [ | h r IH]; intros s D I; cbn [replace_hits].
  - exists s. reflexivity.
  - inversion D as [ | h0 r0 Nh Dr]. subst.
    pose proof (list_remove_In h (self_asteroids s) (I h (or_introl eq_refl)))
      as L.
    destruct (list_remove h (self_asteroids s)) as [l | ] eqn:R;
      [ | contradiction].
    destruct (_new_asteroid (random_state s)) as [n g].
    apply IH; [exact Dr | ].
    intros h' Hh'. cbn [self_asteroids set_asteroids].
    apply in_or_app. left.
    apply (list_remove_keeps h h' (self_asteroids s) l R).
    + intros ->. contradiction.
    + apply I. right. exact Hh'.
Qed.

Lemma collect_hits_subset bl al :
  forall h, In h (collect_hits bl al) -> In h al.
Proof.
  induction bl as [ | b r IH]; intros h H; cbn [collect_hits] in H.
  - contradiction.
  - destruct (find (blast_in b) al) as [a | ] eqn:F.
    + destruct H as [<- | H]; [ | apply IH; exact H].
      apply find_some in F. apply F.
    + apply IH. exact H.
Qed.

Lemma find_existsb {A : Type} (f : A -> bool) (l : list A) :
  existsb f l = match find f l with Some _ => true | None => false end.
Proof.
  induction l as [ | a r IH]; cbn [existsb find].
  - reflexivity.
  - destruct (f a); [reflexivity | exact IH].
Qed.

Lemma collect_hits_count bl al :
  List.length (collect_hits bl al)
  = List.length (filter (fun b => existsb (blast_in b) al) bl).
Proof.
  induction bl as [ | b r IH]; cbn [collect_hits filter].
  - reflexivity.
  - rewrite find_existsb.
    destruct (find (blast_in b) al); cbn [List.length]; congruence.
Qed.

Lemma collect_hits_short bl al :
  (List.length (collect_hits bl al) <= List.length bl)%nat.
Proof.
  rewrite collect_hits_count. apply filter_length_le.
Qed.

Lemma hits_resolve_without_duplicates_aux (s : AsteroidEnv) :
  NoDup (collect_hits (self_blasts_list s) (self_asteroids s)) ->
  exists n s', _check_blast_hits s = Returned n s'.
Proof.
  intros D.
  destruct (replace_hits_returns _ s D (collect_hits_subset _ _))
    as (s' & R).
  exists (List.length (collect_hits (self_blasts_list s) (self_asteroids s))),
    s'.
  unfold _check_blast_hits. rewrite R. reflexivity.
Qed.

(** X8.  When no two projectiles pick equal asteroids, [_check_blast_hits]
    returns; what it returns is the number of projectiles that lie inside at
    least one asteroid (never more than the projectiles in flight), and the
    asteroid count is unchanged. *)
Theorem hits_resolve_without_duplicates (s : AsteroidEnv) :
  NoDup (collect_hits (self_blasts_list s) (self_asteroids s)) ->
  exists n s',
    _check_blast_hits s = Returned n s' /\
    n = List.length
          (filter (fun b => existsb (blast_in b) (self_asteroids s))
                  (self_blasts_list s)) /\
    (n <= List.length (self_blasts_list s))%nat /\
    List.length (self_asteroids s') = List.length (self_asteroids s).
Proof.
  intros D.
  destruct (replace_hits_returns _ s D (collect_hits_subset _ _))
    as (s' & R).
  exists (List.length (collect_hits (self_blasts_list s) (self_asteroids s))),
    s'.
  split; [ | split; [ | split]].
  - unfold _check_blast_hits. rewrite R. reflexivity.
  - apply collect_hits_count.
  - apply collect_hits_short.
  - apply (replace_hits_length _ _ _ _ R).
Qed.

Lemma hits_resolve_without_duplicates_witness :
  collect_hits (self_blasts_list hit_moved) (self_asteroids hit_moved)
  = [mkAsteroid 400 98 15 2] /\
  exists n s',
    _check_blast_hits hit_moved = Returned n s' /\
    n = List.length
          (filter (fun b => existsb (blast_in b) (self_asteroids hit_moved))
                  (self_blasts_list hit_moved)) /\
    (n <= List.length (self_blasts_list hit_moved))%nat /\
    List.length (self_asteroids s') = List.length (self_asteroids hit_moved).
Proof.
  assert (C : collect_hits (self_blasts_list hit_moved)
                           (self_asteroids hit_moved)
              = [mkAsteroid 400 98 15 2])
    by reflexivity.
  split; [exact C | ].
  apply (hits_resolve_without_duplicates hit_moved).
  rewrite C. constructor; [intros [] | constructor].
Defined.

(** X9.  A call of [step] can only raise [ValueError], only in a tick
    without [QUIT], and only when, after the moves of that tick, two
    projectiles in flight picked equal asteroids; in particular never with
    fewer than two projectiles in flight. *)
Theorem step_raises_only_on_double_hit {T : Trig}
        (action : PyValue) (inp : Input) (s : AsteroidEnv)
        (e : exn) (s' : AsteroidEnv) :
  step action inp s = Raised e s' ->
  let s4 := _move_blasts
              (_move_asteroids
                 (_move_player (get_pressed inp)
                               (fst (handle_events (event_get inp) s)))) in
  e = ValueError /\
  ~ In QUIT (event_get inp) /\
  ~ NoDup (collect_hits (self_blasts_list s4) (self_asteroids s4)) /\
  (2 <= List.length (self_blasts_list s4))%nat.
Proof.
  intros H s4.
  assert (NQ : ~ In QUIT (event_get inp)).
  { intros Q.
    pose proof (handle_events_In_quit (event_get inp) s Q) as Hq.
    destruct (handle_events (event_get inp) s) as [s1 q] eqn:E.
    cbn [snd] in Hq. subst q.
    rewrite (step_quit _ _ _ _ E) in H. discriminate. }
  pose proof (handle_events_no_quit (event_get inp) s NQ) as Hq.
  subst s4.
  destruct (handle_events (event_get inp) s) as [s1 q] eqn:E.
  cbn [snd fst] in *. subst q.
  rewrite (step_normal _ _ _ _ E) in H.
  set (s4 := _move_blasts
               (_move_asteroids (_move_player (get_pressed inp) s1))) in *.
  assert (ND : ~ NoDup (collect_hits (self_blasts_list s4)
                                     (self_asteroids s4))).
  { intros D.
    destruct (hits_resolve_without_duplicates_aux s4 D) as (n & s5 & R).
    rewrite R in H. discriminate. }
  split; [destruct e; reflexivity | ]. split; [exact NQ | ].
  split; [exact ND | ].
  pose proof (collect_hits_short (self_blasts_list s4) (self_asteroids s4))
    as L.
  destruct (collect_hits (self_blasts_list s4) (self_asteroids s4))
    as [ | h1 [ | h2 r]] eqn:C.
  - exfalso. apply ND. constructor.
  - exfalso. apply ND. constructor; [intros [] | constructor].
  - cbn [List.length] in L. lia.
Qed.

Lemma step_raises_only_on_double_hit_witness :
  (2 <= List.length
          (self_blasts_list
             (_move_blasts
                (_move_asteroids
                   (_move_player (get_pressed idle)
                      (fst (handle_events (event_get idle)
                                          double_env)))))))%nat.
Proof.
  assert (H : step (T := table_trig) PyNone idle double_env
              = Raised ValueError double_raised)
    by reflexivity.
  exact (proj2 (proj2 (proj2
           (step_raises_only_on_double_hit (T := table_trig) PyNone idle
              double_env ValueError double_raised H)))).
Defined.

(** ** What the readings of the range finder mean *)

Lemma existsb_pointwise {A : Type} (f g : A -> bool) (l : list A) :
  (forall a, f a = g a) -> existsb f l = existsb g l.
Proof.
  intros E. induction l as [ | a r IH]; cbn [existsb].
  - reflexivity.
  - rewrite E, IH. reflexivity.
Qed.

Lemma Exists_hd {A : Type} (P : A -> Prop) (d : A) (l : list A) :
  (0 < List.length l)%nat -> P (hd d l) -> Exists P l.
Proof.
  destruct l as [ | a r]; cbn [List.length hd]; intros L H.
  - lia.
  - left. exact H.
Qed.

Lemma py_range_lidar_head :
  exists tl, py_range 0 LIDAR_RANGE 5 = 0 :: tl.
Proof. eexists. reflexivity. Qed.

Lemma normalised_zero (d : Z) :
  (Qred (inject_Z d / inject_Z LIDAR_RANGE) == 0)%Q -> d = 0.
Proof.
  rewrite Qred_correct. unfold Qeq, Qdiv, Qmult, Qinv, inject_Z, LIDAR_RANGE.
  cbn [Qnum Qden]. lia.
Qed.

Section Readings.

Context {T : Trig}.

Lemma ray_dist_multiple s angle :
  exists k, 0 <= k <= 40 /\ ray_dist s angle = 5 * k.
Proof.
  unfold ray_dist.
  destruct (find _ (py_range 0 LIDAR_RANGE 5)) as [r | ] eqn:F.
  - apply find_some in F. destruct F as [F _].
    unfold py_range, LIDAR_RANGE in F.
    change (Z.to_nat ((200 - 0 + 5 - 1) / 5)) with 40%nat in F.
    apply in_map_iff in F. destruct F as (i & <- & Hi).
    apply in_seq in Hi. exists (Z.of_nat i). lia.
  - exists 40. unfold LIDAR_RANGE. lia.
Qed.

(** X10.  The range finder has a resolution of 5 units: every reading is
    one of the 41 values [k / 40], [k = 0 .. 40]. *)
Theorem lidar_readings_are_quantised (s : AsteroidEnv) :
  Forall (fun v => exists k, 0 <= k <= 40 /\ (v == inject_Z k / 40)%Q)
         (_get_lidar s).
Proof.
  unfold _get_lidar. apply Forall_map. apply Forall_forall.
  intros angle _.
  destruct (ray_dist_multiple s angle) as (k & Hk & ->).
  exists k. split; [exact Hk | ].
  rewrite Qred_correct, inject_Z_mult.
  change (inject_Z LIDAR_RANGE) with 200%Q. change (inject_Z 5) with 5%Q.
  field.
Qed.

(** The sample at marched distance 0 is the player's centre, whatever the
    direction of the ray. *)
Lemma ray_stops_zero s dx dy :
  ray_stops s dx dy 0
  = (negb (Qle_bool 0 (inject_Z (self_x s)))
     || Qle_bool (inject_Z WIDTH) (inject_Z (self_x s))
     || negb (Qle_bool 0 (inject_Z (self_y s)))
     || Qle_bool (inject_Z HEIGHT) (inject_Z (self_y s)))
    || existsb (blast_in (mkBlast (self_x s) (self_y s))) (self_asteroids s).
Proof.
  unfold ray_stops. cbv zeta.
  assert (EX : (inject_Z (self_x s) + dx * inject_Z 0
                == inject_Z (self_x s))%Q)
    by (change (inject_Z 0) with 0%Q; ring).
  assert (EY : (inject_Z (self_y s) + dy * inject_Z 0
                == inject_Z (self_y s))%Q)
    by (change (inject_Z 0) with 0%Q; ring).
  rewrite EX, EY. f_equal.
  apply existsb_pointwise. intros a.
  unfold blast_in, distance_le, zpoint. cbn [fst snd blast_x blast_y].
  rewrite EX, EY. reflexivity.
Qed.

Lemma ray_dist_zero s angle :
  0 <= self_x s < WIDTH -> 0 <= self_y s < HEIGHT ->
  (ray_dist s angle = 0 <->
   existsb (blast_in (mkBlast (self_x s) (self_y s))) (self_asteroids s)
   = true).
Proof.
  intros X Y.
  assert (W : forall dx dy,
             ray_stops s dx dy 0
             = existsb (blast_in (mkBlast (self_x s) (self_y s)))
                       (self_asteroids s)).
  { intros dx dy. rewrite ray_stops_zero.
    assert (B1 : Qle_bool 0 (inject_Z (self_x s)) = true)
      by (apply Qle_bool_iff; rewrite <- (Zle_Qle 0); lia).
    assert (B3 : Qle_bool 0 (inject_Z (self_y s)) = true)
      by (apply Qle_bool_iff; rewrite <- (Zle_Qle 0); lia).
    assert (B2 : Qle_bool (inject_Z WIDTH) (inject_Z (self_x s)) = false).
    { destruct (Qle_bool (inject_Z WIDTH) (inject_Z (self_x s))) eqn:F;
        [ | reflexivity].
      apply Qle_bool_iff in F. rewrite <- Zle_Qle in F. lia. }
    assert (B4 : Qle_bool (inject_Z HEIGHT) (inject_Z (self_y s)) = false).
    { destruct (Qle_bool (inject_Z HEIGHT) (inject_Z (self_y s))) eqn:F;
        [ | reflexivity].
      apply Qle_bool_iff in F. rewrite <- Zle_Qle in F. lia. }
    rewrite B1, B2, B3, B4. reflexivity. }
  unfold ray_dist. destruct py_range_lidar_head as (tl & ->).
  cbn [find]. rewrite W.
  destruct (existsb _ (self_asteroids s)).
  - split; reflexivity.
  - split; [ | discriminate]. intros H. exfalso.
    destruct (find _ tl) as [r | ] eqn:F.
    + subst r. apply find_some in F. destruct F as [_ F].
      rewrite W in F. discriminate.
    + unfold LIDAR_RANGE in H. discriminate.
Qed.

(** X11.  A reading of 0 only ever comes with the terminal tick: in a tick
    without [QUIT] that returns, if any value of the observation is 0 then
    all 24 are 0 (the player's centre lies inside an asteroid) and [done] is
    set. *)
Theorem zero_reading_is_terminal
        (action : PyValue) (inp : Input) (s : AsteroidEnv)
        (r : StepResult) (s' : AsteroidEnv) (o : list Q) :
  0 <= self_radius s ->
  ~ In QUIT (event_get inp) ->
  step action inp s = Returned r s' ->
  obs r = Some o ->
  Exists (fun v => (v == 0)%Q) o ->
  o = repeat 0%Q LIDAR_RAYS /\ done r = true.
Proof.
  intros R0 NQ H O Z.
  destruct (step_normal_result _ _ _ _ _ NQ H) as (Ho & Hd & _).
  destruct (step_normal_player _ _ _ _ _ NQ H) as (Hr & Hy & Hx).
  rewrite Ho in O. inversion O. subst o. clear O.
  assert (X : 0 <= self_x s' < WIDTH)
    by (rewrite Hx; unfold np_clip, WIDTH; lia).
  assert (Y : 0 <= self_y s' < HEIGHT)
    by (rewrite Hy; unfold np_clip, HEIGHT; lia).
  assert (I : existsb (blast_in (mkBlast (self_x s') (self_y s')))
                      (self_asteroids s') = true).
  { apply Exists_exists in Z. destruct Z as (v & Hv & Hz).
    unfold _get_lidar in Hv. apply in_map_iff in Hv.
    destruct Hv as (angle & <- & _).
    apply normalised_zero in Hz.
    apply (ray_dist_zero s' angle X Y). exact Hz. }
  split.
  - unfold _get_lidar. rewrite map_constant with (c := 0%Q).
    + rewrite np_linspace_length. reflexivity.
    + intros angle _.
      rewrite (proj2 (ray_dist_zero s' angle X Y) I). reflexivity.
  - rewrite Hd. apply _check_collisions_true.
    apply existsb_exists in I. destruct I as (a & Ha & Hb).
    exists a. split; [exact Ha | ].
    unfold blast_in in Hb. cbn [blast_x blast_y] in Hb.
    apply distance_le_Z in Hb. destruct Hb as [B0 B1].
    unfold touches. rewrite Hr. split; [lia | ].
    assert (M : ast_radius a * ast_radius a
                <= (self_radius s + ast_radius a)
                   * (self_radius s + ast_radius a))
      by (apply Z.mul_le_mono_nonneg; lia).
    lia.
Qed.

End Readings.

Lemma zero_reading_is_terminal_witness :
  _get_observation (T := table_trig) crash_after = repeat 0%Q LIDAR_RAYS /\
  done crash_result = true.
Proof.
  assert (R0 : 0 <= self_radius crash_env) by (cbn; lia).
  assert (NQ : ~ In QUIT (event_get idle)) by (intros []).
  assert (H : step (T := table_trig) PyNone idle crash_env
              = Returned crash_result crash_after)
    by reflexivity.
  assert (O : obs crash_result
              = Some (_get_observation (T := table_trig) crash_after))
    by reflexivity.
  assert (Z : Exists (fun v => (v == 0)%Q)
                     (_get_observation (T := table_trig) crash_after)).
  { apply (Exists_hd _ 1%Q).
    - unfold _get_observation. rewrite _get_lidar_length.
      unfold LIDAR_RAYS. lia.
    - vm_compute. reflexivity. }
  exact (zero_reading_is_terminal (T := table_trig) PyNone idle crash_env
           crash_result crash_after _ R0 NQ H O Z).
Defined.

(** ** The driver loop *)

Section DriverFacts.

Context {T : Trig}.

Lemma main_loop_app pre :
  forall s s1 rest,
    main_loop pre s = Running s1 ->
    main_loop (pre ++ rest) s = main_loop rest s1.
Proof.
  induction pre as [ | i pre IH]; intros s s1 rest H; cbn [main_loop app] in *.
  - inversion H. reflexivity.
  - destruct (step PyNone i s) as [r s2 | e s2]; [ | discriminate].
    destruct (done r).
    + destruct (dict_get "score" (info r)); discriminate.
    + apply IH. exact H.
Qed.

(** X12.  Closing the window ends the script with a traceback: when the
    loop is still going and the next frame's queue holds [QUIT], [step]
    returns done with an empty info, the loop's [info["score"]] raises
    [KeyError], and the script dies there, never reaching [env.close()].
    The frames after that one are not read. *)
Theorem quit_ends_main_with_KeyError
        (pre : list Input) (q : Input) (post : list Input)
        (s s1 : AsteroidEnv) :
  main_loop pre s = Running s1 ->
  In QUIT (event_get q) ->
  main_loop (pre ++ q :: post) s
  = Uncaught (KeyError "score") (fst (handle_events (event_get q) s1)).
Proof.
  intros H Q.
  rewrite (main_loop_app pre s s1 (q :: post) H). cbn [main_loop].
  pose proof (handle_events_In_quit (event_get q) s1 Q) as Hq.
  destruct (handle_events (event_get q) s1) as [s2 b] eqn:E.
  cbn [snd fst] in *. subst b.
  rewrite (step_quit _ _ _ _ E). reflexivity.
Qed.

(** X13.  The script reaches its game-over line only through a collision:
    when the loop exits, it does so in a tick whose queue held no [QUIT]
    and whose call of [step] returned done (the loop was still going on the
    frames before it, and the frames after it were not read); the player
    touches an asteroid in the environment that tick left, and the value
    printed is the score kept in that environment. *)
Theorem main_exits_only_on_collision
        (frames : list Input) (s : AsteroidEnv)
        (v : InfoValue) (s' : AsteroidEnv) :
  main_loop frames s = Exited v s' ->
  v = InfoFloat (self_score s') /\
  _check_collisions s' = true /\
  (exists a, In a (self_asteroids s') /\ touches s' a) /\
  exists pre i post s1 r,
    frames = pre ++ i :: post /\
    main_loop pre s = Running s1 /\
    ~ In QUIT (event_get i) /\
    step PyNone i s1 = Returned r s' /\
    done r = true.
Proof.
  revert s. induction frames as [ | i rest IH]; intros s H;
    cbn [main_loop] in H.
  - discriminate.
  - destruct (step PyNone i s) as [r s1 | e s1] eqn:E; [ | discriminate].
    destruct (done r) eqn:D.
    + destruct (quit_dec (event_get i)) as [Q | NQ].
      * destruct (step_quit_env _ _ _ _ _ Q E) as (-> & _).
        cbn [info dict_get] in H. discriminate.
      * destruct (step_normal_result _ _ _ _ _ NQ E) as (_ & Hd & _ & _).
        pose proof E as E0.
        pose proof (handle_events_no_quit (event_get i) s NQ) as Hq.
        destruct (handle_events (event_get i) s) as [s0 b] eqn:Ev.
        cbn [snd] in Hq. subst b.
        rewrite (step_normal _ _ _ _ Ev) in E.
        destruct (_check_blast_hits _) as [n s5 | e s5]; [ | discriminate].
        cbv zeta in E. inversion E. subst r s1. clear E.
        cbn [info dict_get String.eqb Ascii.eqb Bool.eqb] in H.
        inversion H. subst v s'. clear H.
        rewrite D in Hd.
        split; [reflexivity | ]. split; [symmetry; exact Hd | ].
        split; [apply _check_collisions_true; symmetry; exact Hd | ].
        eexists [], i, rest, s, _.
        split; [reflexivity | ]. split; [reflexivity | ].
        split; [exact NQ | ]. split; [exact E0 | exact D].
    + destruct (IH s1 H)
        as (A & B & C & pre & j & post & s2 & r2 & -> & L & NQ & S & Dn).
      split; [exact A | ]. split; [exact B | ]. split; [exact C | ].
      exists (i :: pre), j, post, s2, r2.
      split; [reflexivity | ]. split.
      * cbn [main_loop]. rewrite E, D. exact L.
      * split; [exact NQ | ]. split; [exact S | exact Dn].
Qed.

End DriverFacts.

Lemma quit_ends_main_with_KeyError_witness :
  main_loop (T := table_trig) ([idle] ++ close_window :: [idle]) fresh_env
  = Uncaught (KeyError "score")
             (fst (handle_events (event_get close_window) fresh_after)).
Proof.
  assert (H : main_loop (T := table_trig) [idle] fresh_env
              = Running fresh_after)
    by reflexivity.
  assert (Q : In QUIT (event_get close_window)) by (left; reflexivity).
  exact (quit_ends_main_with_KeyError (T := table_trig) [idle] close_window
           [idle] fresh_env fresh_after H Q).
Defined.

Lemma main_exits_only_on_collision_witness :
  _check_collisions crash_after = true.
Proof.
  assert (H : main_loop (T := table_trig) [idle] crash_env
              = Exited (InfoFloat (self_score crash_after)) crash_after)
    by reflexivity.
  exact (proj1 (proj2
           (main_exits_only_on_collision (T := table_trig) [idle] crash_env
              (InfoFloat (self_score crash_after)) crash_after H))).
Defined.

(** * Properties of [cartpole_game.py] *)

(** X14.  [auto_policy] raises [IndexError] exactly on observations with
    fewer than three components; otherwise it answers 1 when the third
    component is positive and 0 when it is zero or negative. *)
Theorem cartpole_auto_policy_spec (ob : list Q) :
  (CartPole.auto_policy ob = None <-> (List.length ob < 3)%nat) /\
  (forall a, CartPole.auto_policy ob = Some a ->
             exists angle,
               nth_error ob 2 = Some angle /\
               (a = 1 /\ (0 < angle)%Q \/ a = 0 /\ (angle <= 0)%Q)).
Proof.
  unfold CartPole.auto_policy. split.
  - destruct (nth_error ob 2) as [angle | ] eqn:N.
    + split; [discriminate | ].
      intros L.
      assert (G : (2 < List.length ob)%nat)
        by (apply nth_error_Some; congruence).
      lia.
    + split; [ | reflexivity].
      intros _. apply nth_error_None in N. lia.
  - intros a H. destruct (nth_error ob 2) as [angle | ]; [ | discriminate].
    exists angle. split; [reflexivity | ].
    destruct (Qle_bool angle 0) eqn:Q; cbn [negb] in H; inversion H.
    + right. split; [reflexivity | ]. apply Qle_bool_iff. exact Q.
    + left. split; [reflexivity | ].
      apply Qnot_le_lt. intros L. apply Qle_bool_iff in L. congruence.
Qed.

Section EpisodeFacts.

Context {St : Type} (env : CartPole.GymEnv St).

Lemma episode_loop_bound (fuel : nat) :
  forall mode max_steps ob total steps e,
    (1 <= fuel)%nat ->
    max_steps - steps <= Z.of_nat fuel ->
    exists out,
      CartPole.episode_loop env fuel mode max_steps ob total steps e
      = Some out /\
      (forall t n e', out = CartPole.Finished t n e' ->
                      steps < n <= Z.max (steps + 1) max_steps).
Proof.
  induction fuel as [ | k IH]; intros mode max_steps ob total steps e F B.
  - lia.
  - cbn [CartPole.episode_loop].
    set (chosen :=
           if String.eqb mode "random" then
             let (a, e1) := CartPole.env_sample env e in Some (a, e1)
           else if String.eqb mode "auto" then
             match CartPole.auto_policy ob with
             | Some a => Some (a, e)
             | None => None
             end
           else
             let (a, e1) := CartPole.env_sample env e in Some (a, e1)).
    destruct chosen as [[action e1] | ].
    + destruct (CartPole.env_step env action e1) as [result e2].
      destruct result as [ob' rew tm tr | ob' rew dn | ].
      * destruct (tm || tr || (max_steps <=? steps + 1)) eqn:D.
        -- eexists. split; [reflexivity | ].
           intros t n e' H. inversion H. subst. lia.
        -- apply orb_false_iff in D. destruct D as [_ D].
           apply Z.leb_gt in D.
           destruct (IH mode max_steps ob' (total + rew)%Q (steps + 1)
                        (CartPole.env_render env e2))
             as (out & Ho & Hb); [lia | lia | ].
           exists out. split; [exact Ho | ].
           intros t n e' H. specialize (Hb t n e' H). lia.
      * destruct (dn || (max_steps <=? steps + 1)) eqn:D.
        -- eexists. split; [reflexivity | ].
           intros t n e' H. inversion H. subst. lia.
        -- apply orb_false_iff in D. destruct D as [_ D].
           apply Z.leb_gt in D.
           destruct (IH mode max_steps ob' (total + rew)%Q (steps + 1)
                        (CartPole.env_render env e2))
             as (out & Ho & Hb); [lia | lia | ].
           exists out. split; [exact Ho | ].
           intros t n e' H. specialize (Hb t n e' H). lia.
      * eexists. split; [reflexivity | ]. intros t n e' H. discriminate.
    + eexists. split; [reflexivity | ]. intros t n e' H. discriminate.
Qed.

(** X15.  [run_episode] always comes to an end, whatever the environment
    does, and when it returns its step count [n] satisfies
    [1 <= n <= max 1 max_steps]: the loop body runs at least once, also for
    [max_steps <= 0], and never more than [max_steps] times otherwise. *)
Theorem cartpole_episode_ends
        (mode : string) (seed : option Z) (max_steps : Z) (e : St) :
  exists out,
    CartPole.run_episode env mode seed max_steps e = Some out /\
    (forall t n e', out = CartPole.Finished t n e' ->
                    1 <= n <= Z.max 1 max_steps).
Proof.
  unfold CartPole.run_episode.
  destruct (match CartPole.env_reset_seeded env seed e with
            | CartPole.Unpacked ob e1 => (ob, e1)
            | CartPole.Failed e1 => CartPole.env_reset env e1
            end) as [ob e0].
  destruct (episode_loop_bound (Z.to_nat (Z.max 1 max_steps)) mode max_steps
              ob 0%Q 0 e0) as (out & Ho & Hb); [lia | lia | ].
  exists out. split; [exact Ho | ].
  intros t n e' H. specialize (Hb t n e' H). lia.
Qed.

Lemma episode_loop_fallback (fuel : nat) (mode : string) :
  mode <> "auto"%string ->
  forall max_steps ob total steps e,
    CartPole.episode_loop env fuel mode max_steps ob total steps e
    = CartPole.episode_loop env fuel "random" max_steps ob total steps e.
Proof.
  intros N. apply String.eqb_neq in N.
  induction fuel as [ | k IH]; intros max_steps ob total steps e.
  - reflexivity.
  - cbn [CartPole.episode_loop]. rewrite N.
    change (String.eqb "random" "random") with true. cbv iota.
    destruct (String.eqb mode "random");
      destruct (CartPole.env_sample env e) as [a e1];
      destruct (CartPole.env_step env a e1) as [[ob' rew tm tr | ob' rew dn | ] e2];
      try reflexivity.
    + destruct (tm || tr || (max_steps <=? steps + 1));
        [reflexivity | apply IH].
    + destruct (dn || (max_steps <=? steps + 1)); [reflexivity | apply IH].
    + destruct (tm || tr || (max_steps <=? steps + 1));
        [reflexivity | apply IH].
    + destruct (dn || (max_steps <=? steps + 1)); [reflexivity | apply IH].
Qed.

(** X16.  Every mode other than ["auto"] behaves as ["random"]: with
    ["render-only"], or any other string, [run_episode] samples its actions
    from the action space exactly as in random mode. *)
Theorem cartpole_mode_fallback
        (mode : string) (seed : option Z) (max_steps : Z) (e : St) :
  mode <> "auto"%string ->
  CartPole.run_episode env mode seed max_steps e
  = CartPole.run_episode env "random" seed max_steps e.
Proof.
  intros N. unfold CartPole.run_episode.
  destruct (match CartPole.env_reset_seeded env seed e with
            | CartPole.Unpacked ob e1 => (ob, e1)
            | CartPole.Failed e1 => CartPole.env_reset env e1
            end) as [ob e0].
  apply episode_loop_fallback. exact N.
Qed.

Lemma episode_loop_unit_rewards (fuel : nat) :
  CartPole.unit_rewards env ->
  forall mode max_steps ob total steps e t n e',
    (total == inject_Z steps)%Q ->
    CartPole.episode_loop env fuel mode max_steps ob total steps e
    = Some (CartPole.Finished t n e') ->
    (t == inject_Z n)%Q.
Proof.
  intros U.
  induction fuel as [ | k IH];
    intros mode max_steps ob total steps e t n e' E H.
  - discriminate.
  - cbn [CartPole.episode_loop] in H.
    set (chosen :=
           if String.eqb mode "random" then
             let (a, e1) := CartPole.env_sample env e in Some (a, e1)
           else if String.eqb mode "auto" then
             match CartPole.auto_policy ob with
             | Some a => Some (a, e)
             | None => None
             end
           else
             let (a, e1) := CartPole.env_sample env e in Some (a, e1)) in *.
    destruct chosen as [[action e1] | ]; [ | discriminate].
    pose proof (U action e1) as U1.
    destruct (CartPole.env_step env action e1) as [result e2].
    cbn [fst] in U1.
    assert (S1 : forall rew, (rew == 1)%Q ->
                             (total + rew == inject_Z (steps + 1))%Q).
    { intros rew R. rewrite inject_Z_plus, E, R. reflexivity. }
    destruct result as [ob' rew tm tr | ob' rew dn | ]; [ | | discriminate].
    + destruct (tm || tr || (max_steps <=? steps + 1)).
      * inversion H. subst. apply S1. exact U1.
      * apply (IH mode max_steps ob' (total + rew)%Q (steps + 1)
                  (CartPole.env_render env e2) t n e' (S1 rew U1) H).
    + destruct (dn || (max_steps <=? steps + 1)).
      * inversion H. subst. apply S1. exact U1.
      * apply (IH mode max_steps ob' (total + rew)%Q (steps + 1)
                  (CartPole.env_render env e2) t n e' (S1 rew U1) H).
Qed.

(** X17.  When every step of the environment pays the reward 1, as
    CartPole does, the total reward [run_episode] returns equals the number
    of steps it returns. *)
Theorem cartpole_total_reward_counts_steps
        (mode : string) (seed : option Z) (max_steps : Z) (e : St)
        (t : Q) (n : Z) (e' : St) :
  CartPole.unit_rewards env ->
  CartPole.run_episode env mode seed max_steps e
  = Some (CartPole.Finished t n e') ->
  (t == inject_Z n)%Q.
Proof.
  intros U H. unfold CartPole.run_episode in H.
  destruct (match CartPole.env_reset_seeded env seed e with
            | CartPole.Unpacked ob e1 => (ob, e1)
            | CartPole.Failed e1 => CartPole.env_reset env e1
            end) as [ob e0].
  apply (episode_loop_unit_rewards (Z.to_nat (Z.max 1 max_steps)) U mode
           max_steps ob 0%Q 0 e0 t n e');
    [reflexivity | exact H].
Qed.

End EpisodeFacts.

Lemma cartpole_mode_fallback_witness :
  CartPole.run_episode CartPole.toy_env "render-only" (Some 43) 1000 0
  = CartPole.run_episode CartPole.toy_env "random" (Some 43) 1000 0.
Proof.
  apply (cartpole_mode_fallback CartPole.toy_env "render-only" (Some 43)
           1000 0).
  discriminate.
Defined.

Lemma cartpole_total_reward_counts_steps_witness :
  (0 + 1 + 1 + 1 == inject_Z 3)%Q.
Proof.
  assert (U : CartPole.unit_rewards CartPole.toy_env).
  { intros action e. cbn. reflexivity. }
  assert (H : CartPole.run_episode CartPole.toy_env "auto" (Some 43) 1000 0
              = Some (CartPole.Finished (0 + 1 + 1 + 1) 3 3))
    by reflexivity.
  exact (cartpole_total_reward_counts_steps CartPole.toy_env "auto"
           (Some 43) 1000 0 (0 + 1 + 1 + 1) 3 3 U H).
Defined.

Section EpisodeCap.

Context {St : Type} (env : CartPole.GymEnv St).

Lemma episode_loop_cap (fuel : nat) (mode : string) :
  CartPole.never_done env ->
  mode <> "auto"%string ->
  forall max_steps ob total steps e,
    (1 <= fuel)%nat ->
    max_steps - steps <= Z.of_nat fuel ->
    exists t e',
      CartPole.episode_loop env fuel mode max_steps ob total steps e
      = Some (CartPole.Finished t (Z.max (steps + 1) max_steps) e').
Proof.
  intros ND N. apply String.eqb_neq in N.
  induction fuel as [ | k IH]; intros max_steps ob total steps e F B.
  - lia.
  - cbn [CartPole.episode_loop]. rewrite N.
    assert (C : (if String.eqb mode "random"
                 then let (a, e1) := CartPole.env_sample env e in Some (a, e1)
                 else let (a, e1) := CartPole.env_sample env e in Some (a, e1))
                = Some (CartPole.env_sample env e)).
    { destruct (String.eqb mode "random");
        destruct (CartPole.env_sample env e); reflexivity. }
    rewrite C. destruct (CartPole.env_sample env e) as [a e1].
    pose proof (ND a e1) as D.
    destruct (CartPole.env_step env a e1) as [result e2]. cbn [fst] in D.
    destruct result as [ob' rew tm tr | ob' rew dn | ]; [ | | contradiction].
    + destruct D as [-> ->]. cbn [orb].
      destruct (max_steps <=? steps + 1) eqn:L.
      * apply Z.leb_le in L. eexists. eexists.
        replace (Z.max (steps + 1) max_steps) with (steps + 1) by lia.
        reflexivity.
      * apply Z.leb_gt in L.
        destruct (IH max_steps ob' (total + rew)%Q (steps + 1)
                     (CartPole.env_render env e2)) as (t & e' & H);
          [lia | lia | ].
        exists t, e'. rewrite H.
        replace (Z.max (steps + 1 + 1) max_steps)
          with (Z.max (steps + 1) max_steps) by lia.
        reflexivity.
    + subst dn. cbn [orb].
      destruct (max_steps <=? steps + 1) eqn:L.
      * apply Z.leb_le in L. eexists. eexists.
        replace (Z.max (steps + 1) max_steps) with (steps + 1) by lia.
        reflexivity.
      * apply Z.leb_gt in L.
        destruct (IH max_steps ob' (total + rew)%Q (steps + 1)
                     (CartPole.env_render env e2)) as (t & e' & H);
          [lia | lia | ].
        exists t, e'. rewrite H.
        replace (Z.max (steps + 1 + 1) max_steps)
          with (Z.max (steps + 1) max_steps) by lia.
        reflexivity.
Qed.

(** X18.  [max_steps] is the only thing that stops an environment that
    never reports the end of an episode: in a sampling mode [run_episode]
    then returns after exactly [max 1 max_steps] steps. *)
Theorem cartpole_runs_to_the_cap
        (mode : string) (seed : option Z) (max_steps : Z) (e : St) :
  CartPole.never_done env ->
  mode <> "auto"%string ->
  exists t e',
    CartPole.run_episode env mode seed max_steps e
    = Some (CartPole.Finished t (Z.max 1 max_steps) e').
Proof.
  intros ND N. unfold CartPole.run_episode.
  destruct (match CartPole.env_reset_seeded env seed e with
            | CartPole.Unpacked ob e1 => (ob, e1)
            | CartPole.Failed e1 => CartPole.env_reset env e1
            end) as [ob e0].
  apply (episode_loop_cap (Z.to_nat (Z.max 1 max_steps)) mode ND N
           max_steps ob 0%Q 0 e0); lia.
Qed.

(** X19.  In auto mode a first observation with fewer than three
    components ends [run_episode] with [IndexError] before [env.step] is
    ever called: the environment is left as the reset left it. *)
Theorem cartpole_auto_short_observation
        (seed : option Z) (max_steps : Z) (e : St)
        (ob : list Q) (e0 : St) :
  CartPole.env_reset_seeded env seed e = CartPole.Unpacked ob e0 ->
  (List.length ob < 3)%nat ->
  CartPole.run_episode env "auto" seed max_steps e
  = Some (CartPole.Crashed CartPole.IndexError e0).
Proof.
  intros R L. unfold CartPole.run_episode. rewrite R.
  destruct (Z.to_nat (Z.max 1 max_steps)) as [ | k] eqn:F; [lia | ].
  cbn [CartPole.episode_loop].
  change (String.eqb "auto" "random") with false.
  change (String.eqb "auto" "auto") with true. cbv iota.
  assert (A : CartPole.auto_policy ob = None).
  { unfold CartPole.auto_policy.
    destruct (nth_error ob 2) eqn:E; [ | reflexivity].
    assert (G : (2 < List.length ob)%nat)
      by (apply nth_error_Some; congruence).
    lia. }
  rewrite A. reflexivity.
Qed.

End EpisodeCap.

Lemma cartpole_runs_to_the_cap_witness :
  exists t e',
    CartPole.run_episode CartPole.endless_env "random" None 5 7
    = Some (CartPole.Finished t (Z.max 1 5) e').
Proof.
  apply (cartpole_runs_to_the_cap CartPole.endless_env "random" None 5 7).
  - intros action e. cbn. reflexivity.
  - discriminate.
Defined.

Lemma cartpole_auto_short_observation_witness :
  CartPole.run_episode CartPole.short_env "auto" (Some 1) 1000 0
  = Some (CartPole.Crashed CartPole.IndexError 0).
Proof.
  apply (cartpole_auto_short_observation CartPole.short_env (Some 1) 1000 0
           [0; 0]%Q 0).
  - reflexivity.
  - cbn. lia.
Defined.
